(** * File Mover: a verification development for the Obsidian plugin

    The plugin's logic lives in [main.ts]: a path validator
    ([isValidVaultPath]), a frontmatter rewriter (the callback handed to
    [vault.process] by [removeRecommendedPathProperty]) and the move
    orchestration ([handleArchive], [handleRelocate], [archiveFile],
    [relocateFile], [ensureParentFolders]).

    JavaScript strings are sequences of UTF-16 code units; they are modelled
    as lists of code units, a code unit being a natural number ([N]).  The
    regular expressions of the source are written as terms of a small regular
    expression type and run by a backtracking matcher that follows the
    ECMAScript matching order (leftmost start, greedy and lazy quantifiers,
    capture groups).  Calls into the host application (vault lookups, folder
    creation, renames, notices, dialogs) are effects of a small monad that
    threads the host's state, records every call in a trace and propagates
    exceptions. *)

From Stdlib Require Import List Arith NArith Bool Lia String Ascii.
Import ListNotations.

Set Implicit Arguments.

(** ** JavaScript strings *)

Definition code_unit := N.
Definition jsstring := list code_unit.

(** [str "abc"] is the JavaScript string with the code units of the ASCII
    text. *)
Definition str (s : string) : jsstring :=
  map N_of_ascii (list_ascii_of_string s).

Definition NL : code_unit := 10%N.         (* "\n" *)
Definition DOLLAR : code_unit := 36%N.     (* "$" *)
Definition AMP : code_unit := 38%N.        (* "&" *)
Definition QUOTE : code_unit := 39%N.      (* "'" *)
Definition DASH : code_unit := 45%N.       (* "-" *)
Definition DOT : code_unit := 46%N.        (* "." *)
Definition SLASH : code_unit := 47%N.      (* "/" *)
Definition COLON : code_unit := 58%N.      (* ":" *)
Definition BACKSLASH : code_unit := 92%N.  (* "\\" *)
Definition BACKTICK : code_unit := 96%N.   (* "`" *)

Local Open Scope bool_scope.
Local Open Scope N_scope.

Definition is_char (c : code_unit) : code_unit -> bool := N.eqb c.

Definition in_range (lo hi c : code_unit) : bool :=
  (N.leb lo c && N.leb c hi)%bool.

(** The class [\s] of ECMAScript, which is also the set of code units that
    [String.prototype.trim] strips: WhiteSpace and LineTerminator. *)
Definition is_space (c : code_unit) : bool :=
  (in_range 9 13 c                (* TAB, LF, VT, FF, CR *)
   || N.eqb c 32                  (* SPACE *)
   || N.eqb c 160                 (* NO-BREAK SPACE *)
   || N.eqb c 5760                (* U+1680 *)
   || in_range 8192 8202 c        (* U+2000 .. U+200A *)
   || N.eqb c 8232 || N.eqb c 8233 (* U+2028, U+2029 *)
   || N.eqb c 8239                (* U+202F *)
   || N.eqb c 8287                (* U+205F *)
   || N.eqb c 12288               (* U+3000 *)
   || N.eqb c 65279)%bool.        (* U+FEFF *)

(** [[\s\S]]: every code unit. *)
Definition any_char (c : code_unit) : bool := (is_space c || negb (is_space c))%bool.

(** [[a-zA-Z]] *)
Definition is_ascii_letter (c : code_unit) : bool :=
  (in_range 97 122 c || in_range 65 90 c)%bool.

(** [[0-9]] *)
Definition is_digit (c : code_unit) : bool := in_range 48 57 c.

Definition digit_value (c : code_unit) : nat := N.to_nat (c - 48).

Local Close Scope N_scope.

Fixpoint jsstring_eqb (a b : jsstring) : bool :=
  match a, b with
  | [], [] => true
  | x :: a', y :: b' => (N.eqb x y && jsstring_eqb a' b')%bool
  | _, _ => false
  end.

(** [s.startsWith(p)] *)
Fixpoint startsWith (s p : jsstring) {struct p} : bool :=
  match p with
  | [] => true
  | x :: p' =>
      match s with
      | [] => false
      | y :: s' => (N.eqb y x && startsWith s' p')%bool
      end
  end.

(** [s.includes(c)] for a one-character search string. *)
Definition includes (s : jsstring) (c : code_unit) : bool :=
  existsb (N.eqb c) s.

(** [s.split(sep)] for a one-character separator: the result is never empty,
    and the empty string splits into one empty segment. *)
Fixpoint split (sep : code_unit) (s : jsstring) : list jsstring :=
  match s with
  | [] => [[]]
  | c :: t =>
      if N.eqb c sep then [] :: split sep t
      else match split sep t with
           | seg :: segs => (c :: seg) :: segs
           | [] => [[c]]
           end
  end.

(** [parts.join(sep)] *)
Fixpoint join (sep : jsstring) (parts : list jsstring) : jsstring :=
  match parts with
  | [] => []
  | [p] => p
  | p :: rest => p ++ sep ++ join sep rest
  end.

Fixpoint drop_while (p : code_unit -> bool) (s : jsstring) : jsstring :=
  match s with
  | [] => []
  | c :: t => if p c then drop_while p t else s
  end.

(** [s.trim()] *)
Definition trim (s : jsstring) : jsstring :=
  rev (drop_while is_space (rev (drop_while is_space s))).

(** [s.replace(/c/g, d)] for a one-character pattern [c] and a replacement
    [d] without [$]: every occurrence of [c] becomes [d]. *)
Definition replace_all_char (c d : code_unit) (s : jsstring) : jsstring :=
  map (fun x => if N.eqb x c then d else x) s.

(** ** Regular expressions

    The fragment of ECMAScript patterns that the plugin uses: the assertion
    [^] (without the [m] flag), single-character atoms (a literal, a class
    such as [[a-zA-Z]], [\s] or [[\s\S]]), sequencing, the quantifiers [*],
    [*?] and [?] applied to a single-character atom, and capture groups. *)

Inductive regex : Type :=
| REmpty
| RBol
| RClass (p : code_unit -> bool)
| RSeq (r1 r2 : regex)
| RStar (greedy : bool) (p : code_unit -> bool)
| ROpt (p : code_unit -> bool)
| RGroup (r : regex).

Fixpoint RLit (s : jsstring) : regex :=
  match s with
  | [] => REmpty
  | c :: t => RSeq (RClass (is_char c)) (RLit t)
  end.

(** Matcher state: the index of the next code unit, the input from that index
    on, and the captures closed so far (in closing order, which is the group
    numbering for patterns without nested groups). *)
Record mstate : Type := MState {
  pos : nat;
  rest : jsstring;
  caps : list jsstring
}.

Definition continuation := mstate -> option mstate.

(** [p*] (greedy) and [p*?] (lazy) followed by the continuation [k]. *)
Fixpoint star_loop (greedy : bool) (p : code_unit -> bool) (k : continuation)
    (i : nat) (s : jsstring) (cs : list jsstring) : option mstate :=
  match s with
  | [] => k (MState i [] cs)
  | c :: t =>
      if greedy then
        if p c then
          match star_loop greedy p k (S i) t cs with
          | Some e => Some e
          | None => k (MState i s cs)
          end
        else k (MState i s cs)
      else
        match k (MState i s cs) with
        | Some e => Some e
        | None => if p c then star_loop greedy p k (S i) t cs else None
        end
  end.

(** Backtracking matcher in continuation-passing style. *)
Fixpoint rmatch (r : regex) (st : mstate) (k : continuation) : option mstate :=
  match r with
  | REmpty => k st
  | RBol => if Nat.eqb (pos st) 0 then k st else None
  | RClass p =>
      match rest st with
      | c :: t => if p c then k (MState (S (pos st)) t (caps st)) else None
      | [] => None
      end
  | RSeq r1 r2 => rmatch r1 st (fun st1 => rmatch r2 st1 k)
  | RStar greedy p => star_loop greedy p k (pos st) (rest st) (caps st)
  | ROpt p =>
      match rest st with
      | c :: t =>
          if p c then
            match k (MState (S (pos st)) t (caps st)) with
            | Some e => Some e
            | None => k st
            end
          else k st
      | [] => k st
      end
  | RGroup r1 =>
      rmatch r1 st (fun st1 =>
        k (MState (pos st1) (rest st1)
             (caps st ++ [firstn (pos st1 - pos st) (rest st)])))
  end.

(** The match object of [RegExp.prototype.exec]. *)
Record match_result : Type := MatchResult {
  index : nat;
  matched : jsstring;
  groups : list jsstring
}.

(** Without the [g] and [y] flags the search tries every start index from 0
    upwards and returns the first match. *)
Fixpoint exec_from (r : regex) (i : nat) (s : jsstring) : option (nat * mstate) :=
  match rmatch r (MState i s []) (fun e => Some e) with
  | Some e => Some (i, e)
  | None =>
      match s with
      | [] => None
      | _ :: t => exec_from r (S i) t
      end
  end.

Definition exec (r : regex) (input : jsstring) : option match_result :=
  match exec_from r 0 input with
  | Some (i, e) =>
      Some (MatchResult i (firstn (pos e - i) (skipn i input)) (caps e))
  | None => None
  end.

(** [r.test(s)] *)
Definition test (r : regex) (s : jsstring) : bool :=
  match exec r s with Some _ => true | None => false end.

(** [GetSubstitution]: expansion of the [$] patterns of a replacement string.
    There are no named groups in the plugin's patterns, so [$<] is literal. *)
Section Substitution.
Variables (before matched_text after : jsstring) (captures : list jsstring).

Definition capture_ref (n : nat) : option jsstring :=
  match n with
  | O => None
  | S n' => nth_error captures n'
  end.

Fixpoint GetSubstitution (template : jsstring) : jsstring :=
  match template with
  | [] => []
  | c :: t =>
      if N.eqb c DOLLAR then
        match t with
        | [] => [DOLLAR]
        | d :: t' =>
            if N.eqb d DOLLAR then DOLLAR :: GetSubstitution t'
            else if N.eqb d AMP then matched_text ++ GetSubstitution t'
            else if N.eqb d BACKTICK then before ++ GetSubstitution t'
            else if N.eqb d QUOTE then after ++ GetSubstitution t'
            else if is_digit d then
              let one_digit :=
                match capture_ref (digit_value d) with
                | Some cap => cap ++ GetSubstitution t'
                | None => DOLLAR :: d :: GetSubstitution t'
                end in
              match t' with
              | d2 :: t'' =>
                  if is_digit d2 then
                    match capture_ref (10 * digit_value d + digit_value d2) with
                    | Some cap => cap ++ GetSubstitution t''
                    | None => one_digit
                    end
                  else one_digit
              | [] => one_digit
              end
            else DOLLAR :: GetSubstitution t
        end
      else c :: GetSubstitution t
  end.
End Substitution.

(** [input.replace(r, replacement)] for a pattern without the [g] flag and a
    string replacement: only the first match is replaced. *)
Definition replace (input : jsstring) (r : regex) (replacement : jsstring) : jsstring :=
  match exec r input with
  | None => input
  | Some m =>
      let before := firstn (index m) input in
      let after := skipn (index m + List.length (matched m)) input in
      before ++ GetSubstitution before (matched m) after (groups m) replacement ++ after
  end.

(** [input.match(r)] for a pattern without the [g] flag: the match array, whose
    element 0 is the matched text and element [n] the [n]-th capture. *)
Definition js_match (input : jsstring) (r : regex) : option (list jsstring) :=
  match exec r input with
  | None => None
  | Some m => Some (matched m :: groups m)
  end.

(** ** Results of fallible code *)

(** A JavaScript computation returns a value or throws; a thrown value is
    kept in the string form that a template literal gives it. *)
Inductive outcome (A : Type) : Type :=
| Ok (a : A)
| Throw (e : jsstring).
Arguments Ok {A} a.
Arguments Throw {A} e.

(** ** Settings *)

Record FileMoverSettings : Type := {
  archiveFolder : jsstring;
  recommendedPathProperty : jsstring;
  confirmBeforeMove : bool
}.

Definition DEFAULT_SETTINGS : FileMoverSettings :=
  {| archiveFolder := str "90_Archive";
     recommendedPathProperty := str "recommended_path";
     confirmBeforeMove := true |}.

(** ** The patterns of [main.ts] *)

Definition FENCE : jsstring := [DASH; DASH; DASH].

(** [/^---\n([\s\S]*?)\n---/] *)
Definition re_frontmatter : regex :=
  RSeq RBol
    (RSeq (RLit (FENCE ++ [NL]))
       (RSeq (RGroup (RStar false any_char))
          (RLit (NL :: FENCE)))).

(** [/^---\n[\s\S]*?\n---\n?/] *)
Definition re_fence_newline : regex :=
  RSeq RBol
    (RSeq (RLit (FENCE ++ [NL]))
       (RSeq (RStar false any_char)
          (RSeq (RLit (NL :: FENCE))
             (ROpt (is_char NL))))).

(** [/^---\n[\s\S]*?\n---/] *)
Definition re_fence : regex :=
  RSeq RBol
    (RSeq (RLit (FENCE ++ [NL]))
       (RSeq (RStar false any_char)
          (RLit (NL :: FENCE)))).

(** [/^[a-zA-Z]:/] *)
Definition re_drive : regex :=
  RSeq RBol (RSeq (RClass is_ascii_letter) (RClass (is_char COLON))).

(** The SyntaxCharacters of ECMAScript patterns: [^ $ \ . * + ? ( ) [ ] { } |]. *)
Definition is_syntax_character (c : code_unit) : bool :=
  existsb (N.eqb c) (str "^$\.*+?()[]{}|").

(** A pattern source without syntax characters is a sequence of literal
    characters. *)
Definition literal_source (s : jsstring) : bool :=
  forallb (fun c => negb (is_syntax_character c)) s.

(** [^<propName>\s*:] for a property name that is a literal source. *)
Definition re_property (propName : jsstring) : regex :=
  RSeq RBol
    (RSeq (RLit propName)
       (RSeq (RStar true is_space) (RClass (is_char COLON)))).

(** ** The path validator *)

Definition DOTDOT : jsstring := [DOT; DOT].

Definition isValidVaultPath (filePath : jsstring) : bool :=
  (* Block absolute paths (Windows and Unix) *)
  if (test re_drive filePath || startsWith filePath [SLASH])%bool then false
  else
    (* Block path traversal *)
    let segments := split SLASH (replace_all_char BACKSLASH SLASH filePath) in
    if existsb (fun s => jsstring_eqb s DOTDOT) segments then false
    else true.

(** The destination that [handleRelocate] computes from the frontmatter
    value: [recommendedPath.includes(".") ? recommendedPath :
    `${recommendedPath}.md`]. *)
Definition relocate_destination (recommendedPath : jsstring) : jsstring :=
  if includes recommendedPath DOT then recommendedPath
  else recommendedPath ++ str ".md".

(** The destination that [handleArchive] computes:
    [`${this.settings.archiveFolder}/${file.path}`]. *)
Definition archive_destination (settings : FileMoverSettings) (filePath : jsstring) : jsstring :=
  archiveFolder settings ++ [SLASH] ++ filePath.

(** ** The frontmatter rewriter *)

Section Rewriter.

(** The property name of the settings is spliced into a pattern source
    unescaped.  For a name without syntax characters the pattern is
    [re_property]; what the JavaScript engine makes of any other source is
    left to [RegExp_general]: [None] when the constructor throws a
    SyntaxError, otherwise the match test of the compiled pattern. *)
Variable RegExp_general : jsstring -> option (jsstring -> bool).

(** [`^${propName}\\s*:`] *)
Definition property_pattern_source (propName : jsstring) : jsstring :=
  str "^" ++ propName ++ str "\s*:".

(** [line.match(new RegExp(`^${propName}\\s*:`))], as a truth value. *)
Definition property_line (propName line : jsstring) : outcome bool :=
  if literal_source propName then Ok (test (re_property propName) line)
  else
    match RegExp_general (property_pattern_source propName) with
    | Some matches => Ok (matches line)
    | None => Throw (str "SyntaxError: Invalid regular expression")
    end.

(** [lines.filter((line) => !line.match(...))]; the pattern is built anew
    for every line, and an exception of the callback ends the filter. *)
Fixpoint filter_lines (propName : jsstring) (lines : list jsstring)
    : outcome (list jsstring) :=
  match lines with
  | [] => Ok []
  | line :: more =>
      match property_line propName line with
      | Throw e => Throw e
      | Ok is_property =>
          match filter_lines propName more with
          | Throw e => Throw e
          | Ok kept => Ok (if is_property then kept else line :: kept)
          end
      end
  end.

(** [l.trim() === ""] *)
Definition is_blank (l : jsstring) : bool := jsstring_eqb (trim l) [].

(** The callback that [removeRecommendedPathProperty] hands to
    [vault.process]: from the content of the file to its new content. *)
Definition rewrite_frontmatter (propName content : jsstring) : outcome jsstring :=
  (* Match frontmatter block *)
  match js_match content re_frontmatter with
  | None => Ok content
  | Some fmMatch =>
      let fmBlock := nth 1 fmMatch [] in
      let lines := split NL fmBlock in
      match filter_lines propName lines with
      | Throw e => Throw e
      | Ok filtered =>
          (* If frontmatter is now empty, remove the entire block *)
          if forallb is_blank filtered
          then Ok (replace content re_fence_newline [])
          else Ok (replace content re_fence
                     (FENCE ++ [NL] ++ join [NL] filtered ++ [NL] ++ FENCE))
      end
  end.

End Rewriter.

(** ** The host application *)

(** A [TFile] handle: the vault-relative path and the file name. *)
Record TFile : Type := {
  path : jsstring;
  name : jsstring
}.

(** What [getAbstractFileByPath] yields: a file or a folder. *)
Inductive TAbstractFile : Type :=
| IsFile (f : TFile)
| IsFolder (folderPath : jsstring).

(** The calls that leave the plugin, in the order in which they are made. *)
Inductive event : Type :=
| Notice (message : jsstring)
| ConsoleError (message e : jsstring)
| ModalOpen (fileName destination : jsstring)
| GetAbstractFileByPath (p : jsstring)
| CreateFolder (p : jsstring)
| RenameFile (file : TFile) (newPath : jsstring)
| Process (file : TFile).

(** The vault and the file manager, over a host state [W].  The lookup is a
    synchronous read; the other calls may change the state and may throw. *)
Record Host (W : Type) : Type := {
  getAbstractFileByPath : W -> jsstring -> option TAbstractFile;
  createFolder : W -> jsstring -> outcome unit * W;
  renameFile : W -> TFile -> jsstring -> outcome unit * W;
  process : W -> TFile -> (jsstring -> outcome jsstring) -> outcome unit * W
}.

(** ** The effect monad: host state, exceptions and the trace of calls *)

Section Effects.
Variable W : Type.

Definition M (A : Type) : Type := W -> outcome A * W * list event.

Definition ret {A} (a : A) : M A := fun w => (Ok a, w, []).

Definition bind {A B} (m : M A) (f : A -> M B) : M B :=
  fun w =>
    match m w with
    | (Ok a, w1, t1) =>
        match f a w1 with
        | (r, w2, t2) => (r, w2, t1 ++ t2)
        end
    | (Throw e, w1, t1) => (Throw e, w1, t1)
    end.

(** [try { body } catch (e) { handler }] *)
Definition try_catch {A} (body : M A) (handler : jsstring -> M A) : M A :=
  fun w =>
    match body w with
    | (Ok a, w1, t1) => (Ok a, w1, t1)
    | (Throw e, w1, t1) =>
        match handler e w1 with
        | (r, w2, t2) => (r, w2, t1 ++ t2)
        end
    end.

(** A call that is recorded and cannot fail. *)
Definition emit (ev : event) : M unit := fun w => (Ok tt, w, [ev]).

(** A recorded call into the host. *)
Definition call {A} (ev : event) (f : W -> outcome A * W) : M A :=
  fun w => match f w with (r, w1) => (r, w1, [ev]) end.

End Effects.

Arguments ret {W A} a.
Arguments bind {W A B} m f.
Arguments try_catch {W A} body handler.
Arguments emit {W} ev.
Arguments call {W A} ev f.

Notation "x <- m ;; k" := (bind m (fun x => k))
  (at level 61, m at next level, right associativity).
Notation "m ;; k" := (bind m (fun _ => k))
  (at level 61, right associativity).

(** The dialog that asks before a move.  Its Confirm button closes it and runs
    [onConfirm]; the callback reads the plugin's settings when it runs.  Its
    Cancel button only closes it. *)
Record ConfirmMoveModal (W : Type) : Type := {
  fileName : jsstring;
  destination : jsstring;
  onConfirm : FileMoverSettings -> M W unit
}.

(** ** The move orchestration *)

Section Plugin.
Variable RegExp_general : jsstring -> option (jsstring -> bool).
Variable W : Type.
Variable host : Host W.

Definition new_Notice (message : jsstring) : M W unit := emit (Notice message).

Definition console_error (message e : jsstring) : M W unit :=
  emit (ConsoleError message e).

Definition vault_getAbstractFileByPath (p : jsstring) : M W (option TAbstractFile) :=
  call (GetAbstractFileByPath p) (fun w => (Ok (getAbstractFileByPath host w p), w)).

Definition vault_createFolder (p : jsstring) : M W unit :=
  call (CreateFolder p) (fun w => createFolder host w p).

Definition fileManager_renameFile (file : TFile) (newPath : jsstring) : M W unit :=
  call (RenameFile file newPath) (fun w => renameFile host w file newPath).

Definition vault_process (file : TFile) (fn : jsstring -> outcome jsstring) : M W unit :=
  call (Process file) (fun w => process host w file fn).

(** [new ConfirmMoveModal(app, fileName, destination, onConfirm).open()] *)
Definition open_modal (fileName destination : jsstring)
    (onConfirm : FileMoverSettings -> M W unit) : M W (option (ConfirmMoveModal W)) :=
  emit (ModalOpen fileName destination) ;;
  ret (Some {| fileName := fileName; destination := destination;
               onConfirm := onConfirm |}).

(** The loop of [ensureParentFolders] over the remaining parts. *)
Fixpoint ensure_loop (current : jsstring) (parts : list jsstring) : M W unit :=
  match parts with
  | [] => ret tt
  | part :: more =>
      let current' :=
        match current with
        | [] => part
        | _ :: _ => current ++ [SLASH] ++ part
        end in
      existing <- vault_getAbstractFileByPath current' ;;
      match existing with
      | Some _ => ret tt
      | None => vault_createFolder current'
      end ;;
      ensure_loop current' more
  end.

Definition ensureParentFolders (filePath : jsstring) : M W unit :=
  let parts := split SLASH filePath in
  (* parts.pop(): remove the filename *)
  ensure_loop [] (removelast parts).

Definition removeRecommendedPathProperty (settings : FileMoverSettings)
    (file : TFile) : M W unit :=
  let propName := recommendedPathProperty settings in
  vault_process file (rewrite_frontmatter RegExp_general propName).

Definition archiveFile (file : TFile) (destination : jsstring) : M W unit :=
  try_catch
    ((* Check if destination already exists *)
     existing <- vault_getAbstractFileByPath destination ;;
     match existing with
     | Some _ =>
         new_Notice (str "Cannot archive: file already exists at " ++ destination)
     | None =>
         ensureParentFolders destination ;;
         fileManager_renameFile file destination ;;
         new_Notice (str "Archived to " ++ destination)
     end)
    (fun e =>
       new_Notice (str "Archive failed: " ++ e) ;;
       console_error (str "File Mover: archive failed") e).

Definition relocateFile (settings : FileMoverSettings)
    (file : TFile) (destination : jsstring) : M W unit :=
  try_catch
    ((* Check if destination already exists *)
     existing <- vault_getAbstractFileByPath destination ;;
     match existing with
     | Some _ =>
         new_Notice (str "Cannot move: file already exists at " ++ destination)
     | None =>
         ensureParentFolders destination ;;
         fileManager_renameFile file destination ;;
         (* Strip the recommended_path property from frontmatter *)
         movedFile <- vault_getAbstractFileByPath destination ;;
         match movedFile with
         | Some (IsFile moved) => removeRecommendedPathProperty settings moved
         | _ => ret tt
         end ;;
         new_Notice (str "Moved to " ++ destination)
     end)
    (fun e =>
       new_Notice (str "Relocate failed: " ++ e) ;;
       console_error (str "File Mover: relocate failed") e).

Definition handleArchive (settings : FileMoverSettings) (file : TFile)
    : M W (option (ConfirmMoveModal W)) :=
  let destination := archive_destination settings (path file) in
  if confirmBeforeMove settings then
    open_modal (name file) destination (fun _ => archiveFile file destination)
  else
    archiveFile file destination ;; ret None.

Definition handleRelocate (settings : FileMoverSettings) (file : TFile)
    (recommendedPath : jsstring) : M W (option (ConfirmMoveModal W)) :=
  (* Ensure the path ends with .md if it doesn't have an extension *)
  let destination := relocate_destination recommendedPath in
  if negb (isValidVaultPath destination) then
    new_Notice (str "Invalid path: must be a relative path within the vault") ;;
    ret None
  else if confirmBeforeMove settings then
    open_modal (name file) destination
      (fun settings' => relocateFile settings' file destination)
  else
    relocateFile settings file destination ;; ret None.

(** The click on the dialog's Confirm button. *)
Definition click_confirm (settings : FileMoverSettings)
    (modal : ConfirmMoveModal W) : M W unit :=
  onConfirm modal settings.

End Plugin.

(** ** Reading the trace *)

Definition trace_of {A W : Type} (x : outcome A * W * list event) : list event :=
  snd x.

(** The destinations handed to [fileManager.renameFile]. *)
Fixpoint rename_destinations (t : list event) : list jsstring :=
  match t with
  | [] => []
  | RenameFile _ d :: t' => d :: rename_destinations t'
  | _ :: t' => rename_destinations t'
  end.

(** Every rename that [m] issues, from any host state, goes to a destination
    in [P]. *)
Definition renames_only {W A : Type} (P : jsstring -> Prop) (m : M W A) : Prop :=
  forall w, Forall P (rename_destinations (trace_of (m w))).

(** What a click on Confirm does when a handler has opened the dialog. *)
Definition after_confirm {W : Type} (settings : FileMoverSettings)
    (opened : outcome (option (ConfirmMoveModal W)) * W * list event) : M W unit :=
  match fst (fst opened) with
  | Ok (Some modal) => click_confirm settings modal
  | _ => ret tt
  end.

(** ** Properties of paths and documents, stated without the matcher *)

(** A Windows drive prefix: one ASCII letter and a colon. *)
Definition has_drive_prefix (p : jsstring) : Prop :=
  exists c tail, is_ascii_letter c = true /\ p = c :: COLON :: tail.

Definition begins_with_slash (p : jsstring) : Prop :=
  exists tail, p = SLASH :: tail.

(** A [..] segment, with [/] or [\] as separators. *)
Definition has_dotdot_segment (p : jsstring) : Prop :=
  In DOTDOT (split SLASH (replace_all_char BACKSLASH SLASH p)).

(** The invariant of destination paths. *)
Definition safe_destination (d : jsstring) : Prop :=
  ~ begins_with_slash d /\ ~ has_drive_prefix d /\
  ~ In DOTDOT (split SLASH d) /\ ~ has_dotdot_segment d.

Definition FENCE_OPEN : jsstring := FENCE ++ [NL].
Definition FENCE_CLOSE : jsstring := NL :: FENCE.

Definition occurs (needle hay : jsstring) : Prop :=
  exists a b, hay = a ++ needle ++ b.

Fixpoint occurs_b (needle hay : jsstring) : bool :=
  (startsWith hay needle ||
   match hay with
   | [] => false
   | _ :: t => occurs_b needle t
   end)%bool.

(** The document starts with the line [---], then comes [block], then a
    newline and [---], then [body]; and this is the first such closing
    delimiter: a newline followed by [---] does not occur in [block], that
    is, no line of [block] after its first one begins with [---]. *)
Definition fenced (content block body : jsstring) : Prop :=
  content = FENCE_OPEN ++ block ++ FENCE_CLOSE ++ body /\
  occurs_b FENCE_CLOSE block = false.

(** The fence in the words of the specification: the text starts with a line
    [---], and a later line is [---]. *)
Definition has_fence_lines (content : jsstring) : bool :=
  match split NL content with
  | first :: later =>
      (jsstring_eqb first FENCE && existsb (fun l => jsstring_eqb l FENCE) later)%bool
  | [] => false
  end.

(** The field line in the words of the specification: the line, with its
    leading whitespace trimmed, starts with [<fieldName>:]. *)
Definition spec_field_line (fieldName line : jsstring) : bool :=
  startsWith (drop_while is_space line) (fieldName ++ [COLON]).

(** The field line as the code has it, as a scan of the line: the line itself
    starts with the name, then come whitespace characters, then a colon. *)
Definition field_line (fieldName line : jsstring) : bool :=
  (startsWith line fieldName
   && startsWith (drop_while is_space (skipn (List.length fieldName) line)) [COLON])%bool.

(** Deleting one newline at the start, if there is one. *)
Definition drop_one_newline (s : jsstring) : jsstring :=
  match s with
  | c :: t => if N.eqb c NL then t else s
  | [] => []
  end.

(** The newline at the start, if there is one. *)
Definition leading_newline (s : jsstring) : jsstring :=
  match s with
  | c :: _ => if N.eqb c NL then [NL] else []
  | [] => []
  end.

(** ** Two hosts to run the plugin on *)

(** An in-memory vault: paths with a file's content or a folder. *)
Inductive node : Type :=
| FileNode (content : jsstring)
| FolderNode.

Definition vault := list (jsstring * node).

Fixpoint vault_find (v : vault) (p : jsstring) : option node :=
  match v with
  | [] => None
  | (q, n) :: v' => if jsstring_eqb q p then Some n else vault_find v' p
  end.

Fixpoint vault_remove (v : vault) (p : jsstring) : vault :=
  match v with
  | [] => []
  | (q, n) :: v' => if jsstring_eqb q p then vault_remove v' p else (q, n) :: vault_remove v' p
  end.

Definition basename (p : jsstring) : jsstring := last (split SLASH p) [].

Definition file_at (p : jsstring) : TFile := {| path := p; name := basename p |}.

Definition vault_lookup (v : vault) (p : jsstring) : option TAbstractFile :=
  match vault_find v p with
  | Some (FileNode _) => Some (IsFile (file_at p))
  | Some FolderNode => Some (IsFolder p)
  | None => None
  end.

Definition vault_mkdir (v : vault) (p : jsstring) : outcome unit * vault :=
  match vault_find v p with
  | Some _ => (Throw (str "Error: Folder already exists."), v)
  | None => (Ok tt, v ++ [(p, FolderNode)])
  end.

Definition vault_rename (v : vault) (f : TFile) (newPath : jsstring) : outcome unit * vault :=
  match vault_find v (path f), vault_find v newPath with
  | Some n, None => (Ok tt, vault_remove v (path f) ++ [(newPath, n)])
  | Some _, Some _ => (Throw (str "Error: Destination file already exists!"), v)
  | None, _ => (Throw (str "Error: File not found"), v)
  end.

Definition vault_rewrite (v : vault) (f : TFile) (fn : jsstring -> outcome jsstring)
    : outcome unit * vault :=
  match vault_find v (path f) with
  | Some (FileNode content) =>
      match fn content with
      | Ok content' => (Ok tt, (path f, FileNode content') :: vault_remove v (path f))
      | Throw e => (Throw e, v)
      end
  | _ => (Throw (str "Error: File not found"), v)
  end.

Definition memory_host : Host vault :=
  {| getAbstractFileByPath := vault_lookup;
     createFolder := vault_mkdir;
     renameFile := vault_rename;
     process := vault_rewrite |}.

(** The same vault behind a path index that has not caught up with a rename:
    the rename succeeds, the lookups still see the old state. *)
Definition lagging_host : Host vault :=
  {| getAbstractFileByPath := vault_lookup;
     createFolder := vault_mkdir;
     renameFile := fun v _ _ => (Ok tt, v);
     process := vault_rewrite |}.

(** An engine that rejects every pattern source outside the literal
    fragment. *)
Definition rejecting_engine : jsstring -> option (jsstring -> bool) :=
  fun _ => None.

(** A document from its lines. *)
Definition document (lines : list string) : jsstring := join [NL] (map str lines).

(** ** Example documents, files and vaults *)

Definition note_with_tags : jsstring :=
  document ["---"; "recommended_path: 03_Areas/Note.md"; "tags: [a, b]"; "---";
            "body text"]%string.

Definition note_with_only_the_property : jsstring :=
  document ["---"; "recommended_path: x"; "---"; "body text"]%string.

Definition note_with_indented_property : jsstring :=
  document ["---"; "  recommended_path: x"; "tags: a"; "---"; "body text"]%string.

Definition note_with_dollars : jsstring :=
  document ["---"; "recommended_path: 03_Areas/Note.md"; "price: $$20"; "---";
            "body text"]%string.

Definition note_with_four_dashes : jsstring :=
  document ["---"; "recommended_path: 03_Areas/Note.md"; "----"; "body text"]%string.

Definition inbox_note : TFile := file_at (str "Inbox/Note.md").

Definition inbox_vault : vault :=
  [(str "Inbox", FolderNode);
   (str "Inbox/Note.md", FileNode note_with_tags);
   (str "03_Areas", FolderNode);
   (str "03_Areas/Taken.md", FileNode (str "already here"))].

Definition settings_without_dialog (folder : string) : FileMoverSettings :=
  {| archiveFolder := str folder;
     recommendedPathProperty := str "recommended_path";
     confirmBeforeMove := false |}.

(** ** The file menu *)

(** What the metadata cache holds under a frontmatter key: a string, or
    anything else (no cache, no frontmatter, no such key, a number, a list). *)
Inductive frontmatter_value : Type :=
| FmString (s : jsstring)
| FmOther.

(** An item added to the context menu of a file.  Its click handler reads the
    plugin's settings when it runs. *)
Record MenuItem (W : Type) : Type := {
  title : jsstring;
  icon : jsstring;
  onClick : FileMoverSettings -> M W (option (ConfirmMoveModal W))
}.

Section Menu.
Variable RegExp_general : jsstring -> option (jsstring -> bool).
Variable W : Type.
Variable host : Host W.

(** The callback that [onload] registers for the [file-menu] event: the items
    it adds, in order, for the entry [file] whose cached frontmatter is
    [frontmatter]. *)
Definition file_menu (settings : FileMoverSettings) (file : TAbstractFile)
    (frontmatter : jsstring -> frontmatter_value) : list (MenuItem W) :=
  match file with
  | IsFolder _ => []
  | IsFile f =>
      (* Archive option (hidden if already in archive folder) *)
      (if negb (startsWith (path f) (archiveFolder settings ++ [SLASH]))
       then [ {| title := str "Archive";
                 icon := str "archive";
                 onClick := fun settings' => handleArchive host settings' f |} ]
       else [])
      ++
      (* Relocate option (only when recommended_path exists) *)
      match frontmatter (recommendedPathProperty settings) with
      | FmString recommendedPath =>
          if (negb (jsstring_eqb recommendedPath [])
              && negb (jsstring_eqb (trim recommendedPath) []))%bool
          then [ {| title := str "Move to " ++ recommendedPath;
                    icon := str "folder-input";
                    onClick := fun settings' =>
                      handleRelocate RegExp_general host settings' f
                        (trim recommendedPath) |} ]
          else []
      | FmOther => []
      end
  end.

End Menu.

(** The menu has an item with the icon [what]. *)
Definition offers {W : Type} (what : jsstring) (items : list (MenuItem W)) : Prop :=
  exists item, In item items /\ icon item = what.

(** ** More ways to read the trace *)

(** The paths handed to [vault.getAbstractFileByPath]. *)
Fixpoint looked_up (t : list event) : list jsstring :=
  match t with
  | [] => []
  | GetAbstractFileByPath p :: t' => p :: looked_up t'
  | _ :: t' => looked_up t'
  end.

(** The paths handed to [vault.createFolder]. *)
Fixpoint created_folders (t : list event) : list jsstring :=
  match t with
  | [] => []
  | CreateFolder p :: t' => p :: created_folders t'
  | _ :: t' => created_folders t'
  end.

(** The messages shown with [new Notice]. *)
Fixpoint notices (t : list event) : list jsstring :=
  match t with
  | [] => []
  | Notice m :: t' => m :: notices t'
  | _ :: t' => notices t'
  end.

(** The files handed to [vault.process]. *)
Fixpoint processed (t : list event) : list TFile :=
  match t with
  | [] => []
  | Process f :: t' => f :: processed t'
  | _ :: t' => processed t'
  end.

(** The value or exception, and the host state, that a run ends with. *)
Definition result_of {A W : Type} (x : outcome A * W * list event) : outcome A :=
  fst (fst x).

Definition state_of {A W : Type} (x : outcome A * W * list event) : W :=
  snd (fst x).

(** Every call that [m] makes, from any host state, is in [Q]. *)
Definition calls_only {W A : Type} (Q : event -> Prop) (m : M W A) : Prop :=
  forall w, Forall Q (trace_of (m w)).

(** A call that, when it creates a folder, creates one in [P]. *)
Definition creates_in (P : jsstring -> Prop) (ev : event) : Prop :=
  match ev with
  | CreateFolder q => P q
  | _ => True
  end.

(** The folders above a file, from the parts of its path before the file
    name: each part joined to the ones before it, the shallowest first. *)
Fixpoint folder_prefixes (parts : list jsstring) : list jsstring :=
  match parts with
  | [] => []
  | p :: more => p :: map (fun q => p ++ [SLASH] ++ q) (folder_prefixes more)
  end.

Definition ancestors (filePath : jsstring) : list jsstring :=
  folder_prefixes (removelast (split SLASH filePath)).

(** The values that [current] takes in the loop of [ensureParentFolders]. *)
Fixpoint visited (current : jsstring) (parts : list jsstring) : list jsstring :=
  match parts with
  | [] => []
  | part :: more =>
      let current' :=
        match current with
        | [] => part
        | _ :: _ => current ++ [SLASH] ++ part
        end in
      current' :: visited current' more
  end.

(** A lookup or a folder creation at one of the paths [qs]. *)
Definition folder_call (qs : list jsstring) (ev : event) : Prop :=
  match ev with
  | GetAbstractFileByPath q => In q qs
  | CreateFolder q => In q qs
  | _ => False
  end.

(** * Properties *)

(** ** Strings *)

Lemma jsstring_eqb_eq (a b : jsstring) : jsstring_eqb a b = true <-> a = b.
Proof.
  revert b; induction a as [|x a IH]; intros [|y b]; simpl; split; intro H;
    try reflexivity; try discriminate.
  - apply andb_true_iff in H as [Hx Hab].
    apply N.eqb_eq in Hx. apply IH in Hab. now subst.
  - injection H as -> ->. apply andb_true_iff. split.
    + apply N.eqb_refl.
    + now apply IH.
Qed.

Lemma startsWith_iff (s p : jsstring) :
  startsWith s p = true <-> exists t, s = p ++ t.
Proof.
  revert s; induction p as [|x p IH]; intros s; simpl.
  - split; [intros _; now exists s | intros _; reflexivity].
  - destruct s as [|y s].
    + split; [discriminate | intros [t Ht]; discriminate].
    + rewrite andb_true_iff, N.eqb_eq, IH. split.
      * intros [-> [t ->]]. now exists t.
      * intros [t Ht]. injection Ht as -> ->. split; [reflexivity | now exists t].
Qed.

Lemma startsWith_app (p t : jsstring) : startsWith (p ++ t) p = true.
Proof. apply startsWith_iff. now exists t. Qed.

Lemma includes_iff (s : jsstring) (c : code_unit) : includes s c = true <-> In c s.
Proof.
  unfold includes. rewrite existsb_exists. split.
  - intros [x [Hin Hx]]. apply N.eqb_eq in Hx. now subst.
  - intros Hin. exists c. split; [assumption | apply N.eqb_refl].
Qed.

Lemma any_char_true (c : code_unit) : any_char c = true.
Proof. unfold any_char. apply orb_negb_r. Qed.

Lemma split_nonempty (sep : code_unit) (s : jsstring) : split sep s <> [].
Proof.
  destruct s as [|c t]; simpl; [discriminate|].
  destruct (N.eqb c sep); [discriminate|].
  destruct (split sep t); discriminate.
Qed.

(** ** The matcher on the shapes of the plugin's patterns *)

Lemma rmatch_lit_app (l t : jsstring) (i : nat) (cs : list jsstring) (k : continuation) :
  rmatch (RLit l) (MState i (l ++ t) cs) k = k (MState (i + List.length l) t cs).
Proof.
  revert i; induction l as [|c l IH]; intros i; simpl.
  - now rewrite Nat.add_0_r.
  - unfold is_char. rewrite N.eqb_refl. rewrite IH. f_equal. f_equal. lia.
Qed.

Lemma rmatch_lit_fail (l s : jsstring) (i : nat) (cs : list jsstring) (k : continuation) :
  startsWith s l = false -> rmatch (RLit l) (MState i s cs) k = None.
Proof.
  revert s i; induction l as [|c l IH]; intros s i H; simpl in *.
  - discriminate.
  - destruct s as [|y s]; [reflexivity|].
    unfold is_char. rewrite N.eqb_sym.
    destruct (N.eqb y c); simpl in H; [|reflexivity].
    now apply IH.
Qed.

(** A pattern that starts with [^] matches at index 0 or not at all. *)
Lemma exec_from_bol_later (r : regex) (i : nat) (s : jsstring) :
  exec_from (RSeq RBol r) (S i) s = None.
Proof.
  revert i; induction s as [|c s IH]; intros i; simpl; [reflexivity | apply IH].
Qed.

Lemma exec_bol (r : regex) (input : jsstring) :
  exec (RSeq RBol r) input =
  match rmatch r (MState 0 input []) (fun e => Some e) with
  | Some e => Some (MatchResult 0 (firstn (pos e) input) (caps e))
  | None => None
  end.
Proof.
  unfold exec. destruct input as [|c s]; simpl.
  - destruct (rmatch r (MState 0 [] []) (fun e => Some e)); simpl;
      [now rewrite Nat.sub_0_r | reflexivity].
  - destruct (rmatch r (MState 0 (c :: s) []) (fun e => Some e)); simpl.
    + now rewrite Nat.sub_0_r.
    + now rewrite exec_from_bol_later.
Qed.

(** The lazy star stops at the first place where the rest of the pattern
    matches. *)
Lemma star_lazy_first (p : code_unit -> bool) (k : continuation)
    (block tail : jsstring) (cs : list jsstring) (e : mstate) :
  forall i,
    Forall (fun c => p c = true) block ->
    (forall a b, block = a ++ b -> b <> [] ->
                 k (MState (i + List.length a) (b ++ tail) cs) = None) ->
    k (MState (i + List.length block) tail cs) = Some e ->
    star_loop false p k i (block ++ tail) cs = Some e.
Proof.
  induction block as [|c block IH]; intros i Hp Hfail Hk.
  - simpl in *. rewrite Nat.add_0_r in Hk.
    destruct tail; simpl; [assumption | now rewrite Hk].
  - simpl.
    assert (H0 : k (MState i (c :: block ++ tail) cs) = None).
    { specialize (Hfail [] (c :: block) eq_refl). simpl in Hfail.
      rewrite Nat.add_0_r in Hfail. apply Hfail. discriminate. }
    rewrite H0.
    inversion Hp as [|? ? Hc Hp']; subst. rewrite Hc.
    apply IH; [assumption | |].
    + intros a b Hab Hb.
      specialize (Hfail (c :: a) b). simpl in Hfail.
      rewrite Nat.add_succ_comm. apply Hfail; [now rewrite Hab | assumption].
    + simpl in Hk. now rewrite Nat.add_succ_comm.
Qed.

(** The lazy star fails when the rest of the pattern matches nowhere. *)
Lemma star_lazy_none (p : code_unit -> bool) (k : continuation)
    (s : jsstring) (cs : list jsstring) :
  forall i,
    (forall a b, s = a ++ b -> k (MState (i + List.length a) b cs) = None) ->
    star_loop false p k i s cs = None.
Proof.
  induction s as [|c s IH]; intros i Hfail; simpl.
  - specialize (Hfail [] [] eq_refl). simpl in Hfail. now rewrite Nat.add_0_r in Hfail.
  - pose proof (Hfail [] (c :: s) eq_refl) as H0. simpl in H0.
    rewrite Nat.add_0_r in H0. rewrite H0.
    destruct (p c); [|reflexivity].
    apply IH. intros a b Hab.
    specialize (Hfail (c :: a) b). simpl in Hfail.
    rewrite Nat.add_succ_comm. apply Hfail. now rewrite Hab.
Qed.

Lemma firstn_exact (A : Type) (a b : list A) (n : nat) :
  n = List.length a -> firstn n (a ++ b) = a.
Proof.
  intros ->. induction a as [|x a IH]; simpl; [now destruct b | now rewrite IH].
Qed.

Lemma skipn_exact (A : Type) (a b : list A) (n : nat) :
  n = List.length a -> skipn n (a ++ b) = b.
Proof.
  intros ->. induction a as [|x a IH]; simpl; [reflexivity | assumption].
Qed.

Lemma occurs_b_iff (needle hay : jsstring) :
  occurs_b needle hay = true <-> occurs needle hay.
Proof.
  induction hay as [|c hay IH]; simpl.
  - rewrite orb_false_r, startsWith_iff. split.
    + intros [t Ht]. now exists [], t.
    + intros [a [b Hab]]. destruct a; [now exists b | discriminate].
  - rewrite orb_true_iff, startsWith_iff, IH. split.
    + intros [[t Ht]|[a [b Hab]]].
      * now exists [], t.
      * exists (c :: a), b. now rewrite Hab.
    + intros [[|x a] [b Hab]].
      * left. now exists b.
      * right. injection Hab as -> ->. now exists a, b.
Qed.

Lemma occurs_b_false (needle hay : jsstring) :
  occurs_b needle hay = false -> ~ occurs needle hay.
Proof.
  intros H Ho. apply occurs_b_iff in Ho. congruence.
Qed.

(** The closing delimiter cannot start inside a block in which it does not
    occur, not even overlapping the real one. *)
Lemma close_not_inside (block a b rest : jsstring) :
  ~ occurs FENCE_CLOSE block -> block = a ++ b -> b <> [] ->
  startsWith (b ++ FENCE_CLOSE ++ rest) FENCE_CLOSE = false.
Proof.
  intros Hno Hab Hb.
  destruct (startsWith (b ++ FENCE_CLOSE ++ rest) FENCE_CLOSE) eqn:E; [|reflexivity].
  exfalso.
  destruct b as [|b0 [|b1 [|b2 [|b3 b']]]].
  - now apply Hb.
  - unfold FENCE_CLOSE, FENCE, NL, DASH in E. cbn in E.
    rewrite andb_false_r in E. discriminate.
  - unfold FENCE_CLOSE, FENCE, NL, DASH in E. cbn in E.
    rewrite !andb_false_r in E. discriminate.
  - unfold FENCE_CLOSE, FENCE, NL, DASH in E. cbn in E.
    rewrite !andb_false_r in E. discriminate.
  - apply startsWith_iff in E as [t Ht].
    unfold FENCE_CLOSE, FENCE in Ht. simpl in Ht.
    injection Ht as -> -> -> -> Hrest.
    apply Hno. exists a, b'. now rewrite Hab.
Qed.

(** [[\s\S]*?] followed by the closing delimiter: the star takes exactly the
    block. *)
Lemma lazy_block_then_close (k k2 : continuation) (g : mstate -> list jsstring)
    (block body : jsstring) (i : nat) (cs : list jsstring) (e : mstate) :
  (forall st1, k st1 = rmatch (RLit FENCE_CLOSE) (MState (pos st1) (rest st1) (g st1)) k2) ->
  ~ occurs FENCE_CLOSE block ->
  k2 (MState (i + List.length block + 4) body
        (g (MState (i + List.length block) (FENCE_CLOSE ++ body) cs))) = Some e ->
  star_loop false any_char k i (block ++ FENCE_CLOSE ++ body) cs = Some e.
Proof.
  intros Hk Hno Hk2.
  apply star_lazy_first.
  - apply Forall_forall. intros c _. apply any_char_true.
  - intros a b Hab Hb. rewrite Hk. cbn [pos rest].
    apply rmatch_lit_fail. now apply close_not_inside with (block := block) (a := a).
  - rewrite Hk. cbn [pos rest]. rewrite rmatch_lit_app. exact Hk2.
Qed.


Ltac step_seq :=
  change (rmatch (RSeq ?a ?b) ?st ?k) with (rmatch a st (fun st1 => rmatch b st1 k)).

Lemma fence_prefix (block body : jsstring) :
  FENCE_OPEN ++ block ++ FENCE_CLOSE ++ body = (FENCE_OPEN ++ block ++ FENCE_CLOSE) ++ body.
Proof. now rewrite <- !app_assoc. Qed.

Lemma fence_length (block : jsstring) :
  List.length (FENCE_OPEN ++ block ++ FENCE_CLOSE) = List.length block + 8.
Proof. rewrite !length_app. simpl. lia. Qed.

(** [/^---\n([\s\S]*?)\n---/] on a fenced document: the match is the fence
    and the capture is the block. *)
Lemma exec_frontmatter (block body : jsstring) :
  ~ occurs FENCE_CLOSE block ->
  exec re_frontmatter (FENCE_OPEN ++ block ++ FENCE_CLOSE ++ body) =
  Some (MatchResult 0 (FENCE_OPEN ++ block ++ FENCE_CLOSE) [block]).
Proof.
  intros Hno. unfold re_frontmatter. rewrite exec_bol.
  step_seq. fold FENCE_OPEN. rewrite rmatch_lit_app.
  step_seq. cbn [rmatch pos rest caps].
  rewrite lazy_block_then_close with
    (k2 := fun e => Some e)
    (g := fun st1 => [] ++ [firstn (pos st1 - (0 + List.length FENCE_OPEN))
                              (block ++ FENCE_CLOSE ++ body)])
    (e := MState (List.length block + 8) body [block]);
    [ | intro; reflexivity | assumption | ].
  - cbn [pos caps]. rewrite fence_prefix.
    rewrite firstn_exact by (now rewrite fence_length). reflexivity.
  - cbn [pos]. f_equal. f_equal.
    + simpl. lia.
    + simpl. f_equal. apply firstn_exact. lia.
Qed.

(** [/^---\n[\s\S]*?\n---/] on a fenced document. *)
Lemma exec_fence (block body : jsstring) :
  ~ occurs FENCE_CLOSE block ->
  exec re_fence (FENCE_OPEN ++ block ++ FENCE_CLOSE ++ body) =
  Some (MatchResult 0 (FENCE_OPEN ++ block ++ FENCE_CLOSE) []).
Proof.
  intros Hno. unfold re_fence. rewrite exec_bol.
  step_seq. fold FENCE_OPEN. rewrite rmatch_lit_app.
  step_seq. cbn [rmatch pos rest caps].
  rewrite lazy_block_then_close with
    (k2 := fun e => Some e) (g := fun st1 => caps st1)
    (e := MState (List.length block + 8) body []);
    [ | intros [? ? ?]; reflexivity | assumption | ].
  - cbn [pos caps]. rewrite fence_prefix.
    rewrite firstn_exact by (now rewrite fence_length). reflexivity.
  - cbn [caps]. f_equal. f_equal. simpl. lia.
Qed.

Lemma leading_newline_split (s : jsstring) :
  leading_newline s ++ drop_one_newline s = s.
Proof.
  destruct s as [|c t]; [reflexivity|]. simpl.
  destruct (N.eqb_spec c NL); [now subst | reflexivity].
Qed.

(** [/^---\n[\s\S]*?\n---\n?/] on a fenced document: the match takes one
    newline after the fence when there is one. *)
Lemma exec_fence_newline (block body : jsstring) :
  ~ occurs FENCE_CLOSE block ->
  exec re_fence_newline (FENCE_OPEN ++ block ++ FENCE_CLOSE ++ body) =
  Some (MatchResult 0 (FENCE_OPEN ++ block ++ FENCE_CLOSE ++ leading_newline body) []).
Proof.
  intros Hno. unfold re_fence_newline. rewrite exec_bol.
  step_seq. fold FENCE_OPEN. rewrite rmatch_lit_app.
  step_seq. cbn [rmatch pos rest caps].
  rewrite lazy_block_then_close with
    (k2 := fun st => rmatch (ROpt (is_char NL)) st (fun e => Some e))
    (g := fun st1 => caps st1)
    (e := MState (List.length block + 8 + List.length (leading_newline body))
            (drop_one_newline body) []);
    [ | intros [? ? ?]; reflexivity | assumption | ].
  - cbn [pos caps].
    assert (E : FENCE_OPEN ++ block ++ FENCE_CLOSE ++ body =
                (FENCE_OPEN ++ block ++ FENCE_CLOSE ++ leading_newline body)
                  ++ drop_one_newline body).
    { rewrite <- !app_assoc. now rewrite leading_newline_split. }
    rewrite E at 1.
    rewrite firstn_exact; [reflexivity|].
    rewrite !length_app. simpl. lia.
  - cbn [rmatch pos rest caps]. unfold drop_one_newline, leading_newline, is_char.
    change (List.length FENCE_OPEN) with 4.
    destruct body as [|c t].
    + simpl. f_equal. f_equal. lia.
    + rewrite N.eqb_sym.
      destruct (N.eqb c NL); f_equal; f_equal; cbn [List.length]; lia.
Qed.

(** Without the shape [---\n ... \n---] the pattern does not match. *)
Lemma exec_frontmatter_none (content : jsstring) :
  (forall block body, content <> FENCE_OPEN ++ block ++ FENCE_CLOSE ++ body) ->
  exec re_frontmatter content = None.
Proof.
  intros Hno. unfold re_frontmatter. rewrite exec_bol.
  step_seq. fold FENCE_OPEN.
  destruct (startsWith content FENCE_OPEN) eqn:E.
  - apply startsWith_iff in E as [x ->].
    rewrite rmatch_lit_app. step_seq. cbn [rmatch pos rest caps].
    rewrite star_lazy_none; [reflexivity|].
    intros a b Hab. cbn [pos rest]. fold FENCE_CLOSE.
    apply rmatch_lit_fail.
    destruct (startsWith b FENCE_CLOSE) eqn:Eb; [|reflexivity].
    apply startsWith_iff in Eb as [r ->].
    exfalso. apply (Hno a r). now rewrite Hab.
  - now rewrite rmatch_lit_fail.
Qed.

(** ** Replacement strings *)

Lemma GetSubstitution_plain (before m after : jsstring) (captures : list jsstring)
    (template : jsstring) :
  ~ In DOLLAR template ->
  GetSubstitution before m after captures template = template.
Proof.
  induction template as [|c t IH]; intros Hno; [reflexivity|].
  cbn [GetSubstitution].
  destruct (N.eqb c DOLLAR) eqn:E.
  - apply N.eqb_eq in E. exfalso. apply Hno. now left.
  - f_equal. apply IH. intros Hin. apply Hno. now right.
Qed.

Lemma In_join (sep : jsstring) (parts : list jsstring) (c : code_unit) :
  In c (join sep parts) -> In c sep \/ exists p, In p parts /\ In c p.
Proof.
  induction parts as [|p parts IH]; simpl; [contradiction|].
  destruct parts as [|q parts].
  - intros H. right. exists p. auto.
  - intros H. apply in_app_or in H as [H|H].
    + right. exists p. auto.
    + apply in_app_or in H as [H|H]; [now left|].
      destruct (IH H) as [Hs|[p' [Hp' Hc]]]; [now left|].
      right. exists p'. auto.
Qed.

(** [content.replace(/^---\n[\s\S]*?\n---\n?/, "")] on a fenced document. *)
Lemma replace_fence_newline (block body : jsstring) :
  ~ occurs FENCE_CLOSE block ->
  replace (FENCE_OPEN ++ block ++ FENCE_CLOSE ++ body) re_fence_newline [] =
  drop_one_newline body.
Proof.
  intros Hno. unfold replace. rewrite exec_fence_newline by assumption.
  cbn [index matched groups GetSubstitution firstn app Nat.add].
  assert (E : FENCE_OPEN ++ block ++ FENCE_CLOSE ++ body =
              (FENCE_OPEN ++ block ++ FENCE_CLOSE ++ leading_newline body)
                ++ drop_one_newline body).
  { rewrite <- !app_assoc. now rewrite leading_newline_split. }
  rewrite E. now rewrite skipn_exact by reflexivity.
Qed.

(** [content.replace(/^---\n[\s\S]*?\n---/, replacement)] on a fenced
    document, for a replacement without [$]. *)
Lemma replace_fence_plain (block body replacement : jsstring) :
  ~ occurs FENCE_CLOSE block ->
  ~ In DOLLAR replacement ->
  replace (FENCE_OPEN ++ block ++ FENCE_CLOSE ++ body) re_fence replacement =
  replacement ++ body.
Proof.
  intros Hno Hplain. unfold replace. rewrite exec_fence by assumption.
  cbn [index matched groups firstn app Nat.add].
  rewrite GetSubstitution_plain by assumption.
  rewrite fence_prefix. now rewrite skipn_exact by reflexivity.
Qed.

(** ** The property pattern *)

Lemma space_not_colon (c : code_unit) : is_space c = true -> N.eqb COLON c = false.
Proof.
  intros H. destruct (N.eqb_spec COLON c) as [<-|]; [|reflexivity].
  vm_compute in H. discriminate.
Qed.

(** [\s*:] with the greedy star: the match succeeds exactly when a colon
    follows the whitespace. *)
Lemma star_greedy_colon (s : jsstring) (cs : list jsstring) :
  forall i,
    match star_loop true is_space
            (fun st => rmatch (RClass (is_char COLON)) st (fun e => Some e)) i s cs with
    | Some _ => true
    | None => false
    end = startsWith (drop_while is_space s) [COLON].
Proof.
  induction s as [|c t IH]; intros i; [reflexivity|].
  cbn [star_loop drop_while].
  destruct (is_space c) eqn:Hc.
  - specialize (IH (S i)).
    destruct (star_loop true is_space _ (S i) t cs); [assumption|].
    cbn [rmatch rest]. unfold is_char. now rewrite space_not_colon.
  - cbn [rmatch rest startsWith]. unfold is_char. rewrite N.eqb_sym.
    destruct (N.eqb c COLON); reflexivity.
Qed.

(** The pattern [^<propName>\s*:] is the scan [field_line]. *)
Lemma test_re_property (propName line : jsstring) :
  test (re_property propName) line = field_line propName line.
Proof.
  unfold test, re_property, field_line. rewrite exec_bol. step_seq.
  destruct (startsWith line propName) eqn:E.
  - apply startsWith_iff in E as [t ->].
    rewrite rmatch_lit_app. step_seq. cbn [rmatch pos rest caps].
    rewrite skipn_exact by reflexivity. cbn [andb].
    rewrite <- (star_greedy_colon t [] (0 + List.length propName)).
    destruct (star_loop true is_space _ _ t []); reflexivity.
  - now rewrite rmatch_lit_fail.
Qed.

Lemma colon_after_spaces (t : jsstring) :
  startsWith (drop_while is_space t) [COLON] = true <->
  exists ws tail, t = ws ++ COLON :: tail /\ forallb is_space ws = true.
Proof.
  split.
  - induction t as [|c t IH]; simpl; [discriminate|].
    destruct (is_space c) eqn:Hc.
    + intros H. destruct (IH H) as [ws [tail [-> Hws]]].
      exists (c :: ws), tail. split; [reflexivity|]. simpl. now rewrite Hc.
    + simpl. rewrite andb_true_r. intros H. apply N.eqb_eq in H. subst c.
      now exists [], t.
  - intros [ws [tail [-> Hws]]]. induction ws as [|c ws IH]; simpl.
    + change (is_space COLON) with false. simpl. reflexivity.
    + simpl in Hws. apply andb_true_iff in Hws as [Hc Hws]. rewrite Hc. now apply IH.
Qed.

Lemma field_line_iff (propName line : jsstring) :
  field_line propName line = true <->
  exists ws tail,
    line = propName ++ ws ++ COLON :: tail /\ forallb is_space ws = true.
Proof.
  unfold field_line. rewrite andb_true_iff, startsWith_iff. split.
  - intros [[t ->] H]. rewrite skipn_exact in H by reflexivity.
    apply colon_after_spaces in H as [ws [tail [-> Hws]]]. now exists ws, tail.
  - intros [ws [tail [-> Hws]]]. split.
    + now exists (ws ++ COLON :: tail).
    + rewrite skipn_exact by reflexivity. apply colon_after_spaces. now exists ws, tail.
Qed.

Lemma filter_lines_literal (engine : jsstring -> option (jsstring -> bool))
    (propName : jsstring) (lines : list jsstring) :
  literal_source propName = true ->
  filter_lines engine propName lines =
  Ok (filter (fun l => negb (field_line propName l)) lines).
Proof.
  intros Hlit. induction lines as [|l lines IH]; [reflexivity|].
  cbn [filter_lines filter]. unfold property_line. rewrite Hlit, IH.
  rewrite test_re_property. now destruct (field_line propName l).
Qed.

(** ** The rewriter on fenced and unfenced documents *)

Lemma rewrite_frontmatter_fenced (engine : jsstring -> option (jsstring -> bool))
    (propName content block body : jsstring) (kept : list jsstring) :
  fenced content block body ->
  filter_lines engine propName (split NL block) = Ok kept ->
  rewrite_frontmatter engine propName content =
  Ok (if forallb is_blank kept then drop_one_newline body
      else replace content re_fence
             (FENCE ++ [NL] ++ join [NL] kept ++ [NL] ++ FENCE)).
Proof.
  intros [-> Hno] Hkept. apply occurs_b_false in Hno.
  unfold rewrite_frontmatter, js_match.
  rewrite exec_frontmatter by assumption.
  cbn [matched groups nth]. rewrite Hkept.
  destruct (forallb is_blank kept); [|reflexivity].
  now rewrite replace_fence_newline.
Qed.

Lemma rewrite_frontmatter_unfenced (engine : jsstring -> option (jsstring -> bool))
    (propName content : jsstring) :
  (forall block body, content <> FENCE_OPEN ++ block ++ FENCE_CLOSE ++ body) ->
  rewrite_frontmatter engine propName content = Ok content.
Proof.
  intros Hno. unfold rewrite_frontmatter, js_match.
  now rewrite exec_frontmatter_none.
Qed.

(** When no kept line contains a [$], the fence is put back from the kept
    lines and the text after it is untouched. *)
Lemma rewrite_frontmatter_reassembles (engine : jsstring -> option (jsstring -> bool))
    (propName content block body : jsstring) (kept : list jsstring) :
  fenced content block body ->
  filter_lines engine propName (split NL block) = Ok kept ->
  forallb is_blank kept = false ->
  (forall l, In l kept -> ~ In DOLLAR l) ->
  rewrite_frontmatter engine propName content =
  Ok (FENCE_OPEN ++ join [NL] kept ++ FENCE_CLOSE ++ body).
Proof.
  intros Hf Hkept Hblank Hplain.
  rewrite (rewrite_frontmatter_fenced engine propName Hf Hkept), Hblank.
  destruct Hf as [-> Hno]. apply occurs_b_false in Hno.
  rewrite replace_fence_plain; [ | assumption | ].
  - unfold FENCE_OPEN, FENCE_CLOSE. now rewrite <- !app_assoc.
  - intros Hin.
    apply in_app_or in Hin as [Hin|Hin]; [vm_compute in Hin; intuition discriminate|].
    apply in_app_or in Hin as [Hin|Hin]; [vm_compute in Hin; intuition discriminate|].
    apply in_app_or in Hin as [Hin|Hin].
    + apply In_join in Hin as [Hin|[l [Hl Hc]]].
      * vm_compute in Hin; intuition discriminate.
      * exact (Hplain l Hl Hc).
    + apply in_app_or in Hin as [Hin|Hin]; vm_compute in Hin; intuition discriminate.
Qed.

(** A document of the shape [---\n ... \n---] is fenced: the block ends at the
    first closing delimiter. *)
Lemma fence_found (content : jsstring) :
  forall b r, content = FENCE_OPEN ++ b ++ FENCE_CLOSE ++ r ->
  exists block body, fenced content block body.
Proof.
  intros b. induction b as [b IH] using (induction_ltof1 _ (@List.length code_unit)).
  intros r Hc. destruct (occurs_b FENCE_CLOSE b) eqn:E.
  - apply occurs_b_iff in E as [a [b' ->]].
    apply (IH a) with (r := b' ++ FENCE_CLOSE ++ r).
    + unfold ltof. rewrite !length_app. simpl. lia.
    + rewrite Hc. now rewrite <- !app_assoc.
  - exists b, r. now split.
Qed.

(** Every document is fenced or is left as it is. *)
Lemma fenced_or_unchanged (engine : jsstring -> option (jsstring -> bool))
    (propName content : jsstring) :
  (exists block body, fenced content block body) \/
  rewrite_frontmatter engine propName content = Ok content.
Proof.
  destruct (startsWith content FENCE_OPEN) eqn:Es.
  - apply startsWith_iff in Es as [x ->].
    destruct (occurs_b FENCE_CLOSE x) eqn:Ex.
    + left. apply occurs_b_iff in Ex as [b [r ->]].
      now apply fence_found with (b := b) (r := r).
    + right. apply rewrite_frontmatter_unfenced. intros block body H.
      apply app_inv_head in H. apply (occurs_b_false Ex). now exists block, body.
  - right. apply rewrite_frontmatter_unfenced. intros block body ->.
    now rewrite startsWith_app in Es.
Qed.

(** ** Blank lines *)

Lemma drop_while_nil_iff (p : code_unit -> bool) (s : jsstring) :
  drop_while p s = [] <-> forallb p s = true.
Proof.
  induction s as [|c t IH]; simpl; [tauto|].
  destruct (p c); simpl; [assumption|]. split; discriminate.
Qed.

Lemma drop_while_head (p : code_unit -> bool) (s : jsstring) (c : code_unit) (t : jsstring) :
  drop_while p s = c :: t -> p c = false.
Proof.
  induction s as [|x s IH]; simpl; [discriminate|].
  destruct (p x) eqn:E; [assumption|]. intros H. injection H as -> _. assumption.
Qed.

Lemma forallb_rev (p : code_unit -> bool) (s : jsstring) :
  forallb p (rev s) = forallb p s.
Proof.
  apply eq_true_iff_eq. rewrite !forallb_forall. split; intros H x Hx; apply H.
  - now apply in_rev in Hx.
  - now apply in_rev.
Qed.

(** [l.trim() === ""] holds exactly for the lines of whitespace only. *)
Lemma is_blank_spaces (l : jsstring) : is_blank l = forallb is_space l.
Proof.
  apply eq_true_iff_eq. unfold is_blank, trim. rewrite jsstring_eqb_eq. split.
  - intros H.
    assert (H1 : drop_while is_space (rev (drop_while is_space l)) = []).
    { destruct (drop_while is_space (rev (drop_while is_space l))) as [|c t]; [reflexivity|].
      simpl in H. destruct (rev t); discriminate. }
    apply drop_while_nil_iff in H1. rewrite forallb_rev in H1.
    apply drop_while_nil_iff.
    destruct (drop_while is_space l) as [|c t] eqn:E; [reflexivity|].
    apply drop_while_head in E. simpl in H1. rewrite E in H1. discriminate.
  - intros H. apply drop_while_nil_iff in H. now rewrite H.
Qed.

Lemma forallb_is_blank (lines : list jsstring) :
  forallb is_blank lines = forallb (forallb is_space) lines.
Proof.
  induction lines as [|l lines IH]; [reflexivity|].
  simpl. now rewrite is_blank_spaces, IH.
Qed.

(** ** The path validator *)

Lemma test_re_drive_iff (p : jsstring) :
  test re_drive p = true <-> has_drive_prefix p.
Proof.
  unfold test, re_drive, has_drive_prefix. rewrite exec_bol.
  destruct p as [|c [|d t]]; cbn [rmatch pos rest caps].
  - split; [discriminate | intros [c [t [_ H]]]; discriminate].
  - destruct (is_ascii_letter c); split; try discriminate;
      intros [c' [t [_ H]]]; discriminate.
  - unfold is_char. destruct (is_ascii_letter c) eqn:Hc.
    + destruct (N.eqb_spec COLON d) as [<-|Hd].
      * split; [intros _; now exists c, t | reflexivity].
      * split; [discriminate|].
        intros [c' [t' [_ H]]]. injection H as -> Hd' ->. congruence.
    + split; [discriminate|]. intros [c' [t' [Hc' H]]]. injection H as -> -> ->. congruence.
Qed.

Lemma startsWith_slash_iff (p : jsstring) :
  startsWith p [SLASH] = true <-> begins_with_slash p.
Proof. unfold begins_with_slash. now rewrite startsWith_iff. Qed.

Lemma existsb_dotdot_iff (segments : list jsstring) :
  existsb (fun s => jsstring_eqb s DOTDOT) segments = true <-> In DOTDOT segments.
Proof.
  rewrite existsb_exists. split.
  - intros [x [Hin Hx]]. apply jsstring_eqb_eq in Hx. now subst.
  - intros Hin. exists DOTDOT. split; [assumption | now apply jsstring_eqb_eq].
Qed.

Lemma isValidVaultPath_cases (p : jsstring) :
  isValidVaultPath p =
  (negb (test re_drive p) && negb (startsWith p [SLASH])
   && negb (existsb (fun s => jsstring_eqb s DOTDOT)
              (split SLASH (replace_all_char BACKSLASH SLASH p))))%bool.
Proof.
  unfold isValidVaultPath.
  destruct (test re_drive p); [reflexivity|].
  destruct (startsWith p [SLASH]); [reflexivity|]. simpl.
  now destruct (existsb _ _).
Qed.

Lemma in_tl (A : Type) (x : A) (l : list A) : In x (tl l) -> In x l.
Proof. destruct l; simpl; auto. Qed.

(** Replacing the backslashes only cuts segments: a segment between slashes
    that has no backslash is still a segment afterwards. *)
Lemma split_after_normalisation (p : jsstring) :
  (forall seg, In seg (split SLASH p) -> ~ In BACKSLASH seg ->
               In seg (split SLASH (replace_all_char BACKSLASH SLASH p))) /\
  (forall seg, In seg (tl (split SLASH p)) -> ~ In BACKSLASH seg ->
               In seg (tl (split SLASH (replace_all_char BACKSLASH SLASH p)))) /\
  (~ In BACKSLASH (hd [] (split SLASH p)) ->
   hd [] (split SLASH (replace_all_char BACKSLASH SLASH p)) = hd [] (split SLASH p)).
Proof.
  induction p as [|c t [IHall [IHtl IHhd]]].
  - simpl. repeat split; auto.
  - cbn [replace_all_char map split]. fold (replace_all_char BACKSLASH SLASH t).
    destruct (N.eqb_spec c BACKSLASH) as [->|Hb].
    + change (N.eqb BACKSLASH SLASH) with false. rewrite N.eqb_refl.
      destruct (split SLASH t) as [|h tl0] eqn:Et; [now apply split_nonempty in Et|].
      cbn [tl hd]. repeat split.
      * intros seg [<-|Hin] Hno; [exfalso; apply Hno; now left|].
        right. apply in_tl. now apply IHtl.
      * intros seg Hin Hno. apply in_tl. now apply IHtl.
      * intros Hno. exfalso. apply Hno. now left.
    + destruct (N.eqb_spec c SLASH) as [->|Hs].
      * cbn [tl hd]. repeat split.
        -- intros seg [<-|Hin] Hno; [now left | right; now apply IHall].
        -- intros seg Hin Hno. now apply IHall.
      * destruct (split SLASH t) as [|h tl0] eqn:Et; [now apply split_nonempty in Et|].
        destruct (split SLASH (replace_all_char BACKSLASH SLASH t)) as [|h' tl1] eqn:En;
          [now apply split_nonempty in En|].
        cbn [tl hd] in *.
        assert (Hh : ~ In BACKSLASH (c :: h) -> h' = h).
        { intros Hno. apply IHhd. intros Hin. apply Hno. now right. }
        repeat split.
        -- intros seg [<-|Hin] Hno; [left; now rewrite Hh | right; now apply IHtl].
        -- intros seg Hin Hno. now apply IHtl.
        -- intros Hno. now rewrite Hh.
Qed.

Lemma dotdot_segment_survives (p : jsstring) :
  In DOTDOT (split SLASH p) -> has_dotdot_segment p.
Proof.
  intros H. apply (proj1 (split_after_normalisation p)); [assumption|].
  vm_compute. intuition discriminate.
Qed.

(** A path that the validator accepts satisfies the invariant of
    destinations. *)
Lemma isValidVaultPath_safe (p : jsstring) :
  isValidVaultPath p = true -> safe_destination p.
Proof.
  rewrite isValidVaultPath_cases, !andb_true_iff, !negb_true_iff.
  intros [[Hd Hs] Hseg]. unfold safe_destination.
  assert (Hno : ~ has_dotdot_segment p).
  { intros H. apply existsb_dotdot_iff in H. congruence. }
  repeat split.
  - intros H. apply startsWith_slash_iff in H. congruence.
  - intros H. apply test_re_drive_iff in H. congruence.
  - intros H. apply Hno. now apply dotdot_segment_survives.
  - exact Hno.
Qed.

(** ** Which renames a computation can issue *)

Lemma rename_destinations_app (a b : list event) :
  rename_destinations (a ++ b) = rename_destinations a ++ rename_destinations b.
Proof.
  induction a as [|ev a IH]; [reflexivity|].
  destruct ev; simpl; now rewrite ?IH.
Qed.

Section Renames.
Variable RegExp_general : jsstring -> option (jsstring -> bool).
Variable W : Type.
Variable host : Host W.
Variable P : jsstring -> Prop.

Lemma renames_only_ret (A : Type) (a : A) : renames_only (W := W) P (ret a).
Proof. intros w. constructor. Qed.

Lemma renames_only_emit (ev : event) :
  rename_destinations [ev] = [] -> renames_only (W := W) P (emit ev).
Proof. intros H w. unfold emit, trace_of. simpl snd. rewrite H. constructor. Qed.

Lemma renames_only_call (A : Type) (ev : event) (f : W -> outcome A * W) :
  Forall P (rename_destinations [ev]) -> renames_only (W := W) P (call ev f).
Proof.
  intros H w. unfold call, trace_of. destruct (f w) as [r w1]. exact H.
Qed.

Lemma renames_only_bind (A B : Type) (m : M W A) (f : A -> M W B) :
  renames_only (W := W) P m -> (forall a, renames_only (W := W) P (f a)) -> renames_only (W := W) P (bind m f).
Proof.
  intros Hm Hf w. unfold bind, trace_of. specialize (Hm w). unfold trace_of in Hm.
  destruct (m w) as [[[a|e] w1] t1]; simpl in *; [|assumption].
  specialize (Hf a w1). unfold trace_of in Hf.
  destruct (f a w1) as [[r w2] t2]. simpl in *.
  rewrite rename_destinations_app. apply Forall_app. now split.
Qed.

Lemma renames_only_try (A : Type) (body : M W A) (handler : jsstring -> M W A) :
  renames_only (W := W) P body -> (forall e, renames_only (W := W) P (handler e)) ->
  renames_only (W := W) P (try_catch body handler).
Proof.
  intros Hb Hh w. unfold try_catch, trace_of. specialize (Hb w). unfold trace_of in Hb.
  destruct (body w) as [[[a|e] w1] t1]; simpl in *; [assumption|].
  specialize (Hh e w1). unfold trace_of in Hh.
  destruct (handler e w1) as [[r w2] t2]. simpl in *.
  rewrite rename_destinations_app. apply Forall_app. now split.
Qed.

Lemma renames_only_ensure_loop (parts : list jsstring) :
  forall current, renames_only (W := W) P (ensure_loop host current parts).
Proof.
  induction parts as [|part more IH]; intros current; cbn [ensure_loop].
  - apply renames_only_ret.
  - apply renames_only_bind.
    + apply renames_only_call. constructor.
    + intros existing. apply renames_only_bind; [|intros _; apply IH].
      destruct existing.
      * apply renames_only_ret.
      * apply renames_only_call. constructor.
Qed.

Lemma renames_only_ensureParentFolders (filePath : jsstring) :
  renames_only (W := W) P (ensureParentFolders host filePath).
Proof. apply renames_only_ensure_loop. Qed.

Lemma renames_only_archiveFile (file : TFile) (destination : jsstring) :
  P destination -> renames_only (W := W) P (archiveFile host file destination).
Proof.
  intros HP. unfold archiveFile. apply renames_only_try.
  - apply renames_only_bind; [apply renames_only_call; constructor|].
    intros [existing|].
    + now apply renames_only_emit.
    + apply renames_only_bind; [apply renames_only_ensureParentFolders|]. intros _.
      apply renames_only_bind; [apply renames_only_call; simpl; auto|]. intros _.
      now apply renames_only_emit.
  - intros e. apply renames_only_bind; [now apply renames_only_emit|].
    intros _. now apply renames_only_emit.
Qed.

Lemma renames_only_relocateFile (settings : FileMoverSettings) (file : TFile)
    (destination : jsstring) :
  P destination ->
  renames_only (W := W) P (relocateFile RegExp_general host settings file destination).
Proof.
  intros HP. unfold relocateFile. apply renames_only_try.
  - apply renames_only_bind; [apply renames_only_call; constructor|].
    intros [existing|].
    + now apply renames_only_emit.
    + apply renames_only_bind; [apply renames_only_ensureParentFolders|]. intros _.
      apply renames_only_bind; [apply renames_only_call; simpl; auto|]. intros _.
      apply renames_only_bind; [apply renames_only_call; constructor|].
      intros movedFile. apply renames_only_bind; [|intros _; now apply renames_only_emit].
      destruct movedFile as [[moved|folder]|].
      * apply renames_only_call. constructor.
      * apply renames_only_ret.
      * apply renames_only_ret.
  - intros e. apply renames_only_bind; [now apply renames_only_emit|].
    intros _. now apply renames_only_emit.
Qed.

End Renames.

(** ** The handlers and the dialog *)

Section Handlers.
Variable RegExp_general : jsstring -> option (jsstring -> bool).
Variable W : Type.
Variable host : Host W.

Lemma handleRelocate_renames (P : jsstring -> Prop) (settings settings' : FileMoverSettings)
    (file : TFile) (recommendedPath : jsstring) (w w' : W) :
  (isValidVaultPath (relocate_destination recommendedPath) = true ->
   P (relocate_destination recommendedPath)) ->
  let opened := handleRelocate RegExp_general host settings file recommendedPath w in
  Forall P (rename_destinations (trace_of opened)) /\
  Forall P (rename_destinations (trace_of (after_confirm settings' opened w'))).
Proof.
  intros HP. unfold handleRelocate.
  destruct (isValidVaultPath (relocate_destination recommendedPath)) eqn:Hvalid;
    cbn [negb].
  - specialize (HP eq_refl). destruct (confirmBeforeMove settings).
    + split; [constructor|]. unfold after_confirm. cbn.
      apply renames_only_relocateFile. exact HP.
    + split.
      * apply (@renames_only_bind W P unit _
                 (relocateFile RegExp_general host settings file
                    (relocate_destination recommendedPath))
                 (fun _ => ret None)).
        -- now apply renames_only_relocateFile.
        -- intros _. apply renames_only_ret.
      * unfold after_confirm, bind.
        destruct (relocateFile RegExp_general host settings file
                    (relocate_destination recommendedPath) w) as [[[[]|e] w1] t1];
          cbn; constructor.
  - split; cbn; constructor.
Qed.

Lemma handleArchive_renames (P : jsstring -> Prop) (settings settings' : FileMoverSettings)
    (file : TFile) (w w' : W) :
  P (archive_destination settings (path file)) ->
  let opened := handleArchive host settings file w in
  Forall P (rename_destinations (trace_of opened)) /\
  Forall P (rename_destinations (trace_of (after_confirm settings' opened w'))).
Proof.
  intros HP. unfold handleArchive.
  destruct (confirmBeforeMove settings).
  - split; [constructor|]. unfold after_confirm. cbn.
    apply renames_only_archiveFile. exact HP.
  - split.
    + apply (@renames_only_bind W P unit _
               (archiveFile host file (archive_destination settings (path file)))
               (fun _ => ret None)).
      * now apply renames_only_archiveFile.
      * intros _. apply renames_only_ret.
    + unfold after_confirm, bind.
      destruct (archiveFile host file (archive_destination settings (path file)) w)
        as [[[[]|e] w1] t1]; cbn; constructor.
Qed.

End Handlers.

(** * The claims *)

(** ** The path validator *)

(** C4.  For every string [p], [isValidVaultPath p] is true if and only if
    [p] has no drive prefix (an ASCII letter followed by a colon at its
    start), does not start with [/], and, after every backslash is replaced
    by [/] and the result is split on [/], no segment is exactly [..]. *)
Theorem isValidVaultPath_iff (p : jsstring) :
  isValidVaultPath p = true <->
  ~ has_drive_prefix p /\
  ~ begins_with_slash p /\
  ~ In DOTDOT (split SLASH (replace_all_char BACKSLASH SLASH p)).
Proof.
  rewrite isValidVaultPath_cases, !andb_true_iff, !negb_true_iff.
  rewrite <- test_re_drive_iff, <- startsWith_slash_iff, <- existsb_dotdot_iff.
  rewrite !not_true_iff_false. tauto.
Qed.

Example isValidVaultPath_examples :
  isValidVaultPath (str "03_Areas/Note.md") = true /\
  isValidVaultPath (str "../secret.md") = false /\
  isValidVaultPath (str "C:/x.md") = false /\
  isValidVaultPath (str "/etc/x") = false /\
  isValidVaultPath (str "a\..\b") = false /\
  isValidVaultPath (str "a/./b//c..md") = true.
Proof. repeat split; reflexivity. Qed.

(** ** The frontmatter rewriter *)

(** C2, as the code has it.  For a property name without pattern syntax
    characters and a fenced document, the lines that stay are the lines of
    the block that are not property lines, in their order; a line is a
    property line exactly when the line itself, with nothing trimmed, starts
    with the name, followed by any number of whitespace characters and a
    colon; so a line that starts with whitespace is kept when the name does
    not; and the rewriter's result is built from these kept lines. *)
Theorem property_lines_removed (engine : jsstring -> option (jsstring -> bool))
    (propName content block body : jsstring) :
  literal_source propName = true ->
  fenced content block body ->
  let kept := filter (fun l => negb (field_line propName l)) (split NL block) in
  filter_lines engine propName (split NL block) = Ok kept /\
  (forall line,
      field_line propName line = true <->
      exists ws tail,
        line = propName ++ ws ++ COLON :: tail /\ forallb is_space ws = true) /\
  (forall p0 p' c line,
      propName = p0 :: p' -> is_space p0 = false -> is_space c = true ->
      field_line propName (c :: line) = false) /\
  rewrite_frontmatter engine propName content =
  Ok (if forallb is_blank kept then drop_one_newline body
      else replace content re_fence
             (FENCE ++ [NL] ++ join [NL] kept ++ [NL] ++ FENCE)).
Proof.
  intros Hlit Hf kept.
  assert (Hkept : filter_lines engine propName (split NL block) = Ok kept)
    by now apply filter_lines_literal.
  repeat split.
  - exact Hkept.
  - apply field_line_iff.
  - apply field_line_iff.
  - intros p0 p' c line -> Hp0 Hc. unfold field_line. cbn [startsWith].
    destruct (N.eqb_spec c p0) as [->|]; [congruence | reflexivity].
  - exact (rewrite_frontmatter_fenced engine propName Hf Hkept).
Qed.

Lemma property_lines_removed_witness :
  filter_lines rejecting_engine (str "recommended_path")
    (split NL (document ["recommended_path: 03_Areas/Note.md"; "tags: [a, b]"]%string)) =
  Ok [str "tags: [a, b]"].
Proof.
  exact (proj1 (@property_lines_removed rejecting_engine (str "recommended_path")
                  note_with_tags
                  (document ["recommended_path: 03_Areas/Note.md"; "tags: [a, b]"]%string)
                  ([NL] ++ str "body text")
                  eq_refl (conj eq_refl eq_refl))).
Defined.

(** C2, as the specification words it, fails: the indented line of
    [note_with_indented_property] matches [recommended_path:] once its start
    is trimmed, yet the rewriter keeps it and returns the document as it
    was. *)
Lemma indented_property_line_kept :
  spec_field_line (str "recommended_path") (str "  recommended_path: x") = true /\
  filter_lines rejecting_engine (str "recommended_path")
    [str "  recommended_path: x"; str "tags: a"] =
  Ok [str "  recommended_path: x"; str "tags: a"] /\
  rewrite_frontmatter rejecting_engine (str "recommended_path")
    note_with_indented_property = Ok note_with_indented_property.
Proof. repeat split; reflexivity. Qed.

(** The example of the specification. *)
Example rewrite_frontmatter_example (engine : jsstring -> option (jsstring -> bool)) :
  rewrite_frontmatter engine (str "recommended_path") note_with_tags =
  Ok (document ["---"; "tags: [a, b]"; "---"; "body text"]%string).
Proof. reflexivity. Qed.

(** C3.  The claim says that the fence is put back from exactly the kept
    lines.  The code hands the kept lines to [String.prototype.replace] as a
    replacement string, in which [$$], [$&], [$`] and [$'] are patterns: in
    [note_with_dollars] the kept line [price: $$20] comes back as
    [price: $20]. *)
Theorem dollar_in_kept_line_is_expanded (engine : jsstring -> option (jsstring -> bool)) :
  fenced note_with_dollars
    (document ["recommended_path: 03_Areas/Note.md"; "price: $$20"]%string)
    ([NL] ++ str "body text") /\
  filter_lines engine (str "recommended_path")
    (split NL (document ["recommended_path: 03_Areas/Note.md"; "price: $$20"]%string)) =
  Ok [str "price: $$20"] /\
  rewrite_frontmatter engine (str "recommended_path") note_with_dollars =
  Ok (document ["---"; "price: $20"; "---"; "body text"]%string) /\
  document ["---"; "price: $20"; "---"; "body text"]%string <>
  document ["---"; "price: $$20"; "---"; "body text"]%string.
Proof.
  repeat split; try reflexivity. intros H. vm_compute in H. discriminate.
Qed.

(** C5.  For a fenced document, when every line that stays after the
    property lines are removed consists of whitespace only, the rewriter
    returns the text after the fence without its first newline, if it starts
    with one: the two delimiter lines, the block and one newline are gone. *)
Theorem blank_frontmatter_removed (engine : jsstring -> option (jsstring -> bool))
    (propName content block body : jsstring) (kept : list jsstring) :
  fenced content block body ->
  filter_lines engine propName (split NL block) = Ok kept ->
  forallb (forallb is_space) kept = true ->
  rewrite_frontmatter engine propName content = Ok (drop_one_newline body).
Proof.
  intros Hf Hkept Hblank.
  rewrite (rewrite_frontmatter_fenced engine propName Hf Hkept).
  now rewrite forallb_is_blank, Hblank.
Qed.

Lemma blank_frontmatter_removed_witness :
  rewrite_frontmatter rejecting_engine (str "recommended_path")
    note_with_only_the_property = Ok (str "body text").
Proof.
  exact (@blank_frontmatter_removed rejecting_engine (str "recommended_path")
           note_with_only_the_property (str "recommended_path: x")
           ([NL] ++ str "body text") []
           (conj eq_refl eq_refl) eq_refl eq_refl).
Defined.

(** C6.  The claim says that a document without a closing line [---] is
    returned unchanged.  The code takes any later line that begins with [---]
    as the closing delimiter: [note_with_four_dashes] has no line [---] after
    its first, yet its property line and fence are deleted, and what is left
    of the line [----] is one dash. *)
Theorem four_dashes_taken_as_closing_fence (engine : jsstring -> option (jsstring -> bool)) :
  has_fence_lines note_with_four_dashes = false /\
  rewrite_frontmatter engine (str "recommended_path") note_with_four_dashes =
  Ok (document ["-"; "body text"]%string) /\
  document ["-"; "body text"]%string <> note_with_four_dashes.
Proof.
  repeat split; try reflexivity. intros H. vm_compute in H. discriminate.
Qed.

(** ** The move orchestration *)

(** C7.  The destination of a relocate request is the value with [.md]
    appended when the value contains no [.], and the value itself when it
    contains one; and no rename that [handleRelocate] issues, at once or from
    the dialog's Confirm button, goes anywhere else. *)
Theorem relocate_destination_md (engine : jsstring -> option (jsstring -> bool))
    (W : Type) (host : Host W) (settings settings' : FileMoverSettings)
    (file : TFile) (recommendedPath : jsstring) (w w' : W) :
  (~ In DOT recommendedPath /\
   relocate_destination recommendedPath = recommendedPath ++ str ".md" \/
   In DOT recommendedPath /\
   relocate_destination recommendedPath = recommendedPath) /\
  Forall (eq (relocate_destination recommendedPath))
    (rename_destinations
       (trace_of (handleRelocate engine host settings file recommendedPath w))) /\
  Forall (eq (relocate_destination recommendedPath))
    (rename_destinations
       (trace_of (after_confirm settings'
                    (handleRelocate engine host settings file recommendedPath w) w'))).
Proof.
  split.
  - unfold relocate_destination.
    destruct (includes recommendedPath DOT) eqn:E.
    + right. split; [now apply includes_iff | reflexivity].
    + left. split; [|reflexivity].
      intros H. apply includes_iff in H. congruence.
  - now apply handleRelocate_renames.
Qed.

Example relocate_destination_examples :
  relocate_destination (str "03_Areas/NewNote") = str "03_Areas/NewNote.md" /\
  relocate_destination (str "03_Areas/NewNote.md") = str "03_Areas/NewNote.md" /\
  relocate_destination (str "v1.2/NewNote") = str "v1.2/NewNote".
Proof. repeat split; reflexivity. Qed.

(** C1, as the code has it.  Every rename that a relocate request issues, at
    once or from the dialog's Confirm button, goes to a destination that does
    not begin with [/], has no drive prefix and has no [..] segment.  Every
    rename that an archive request issues goes to the archive folder of the
    settings, a [/] and the file's path, whatever these are. *)
Theorem relocate_renames_safe_archive_renames_mirror
    (engine : jsstring -> option (jsstring -> bool))
    (W : Type) (host : Host W) (settings settings' : FileMoverSettings)
    (file : TFile) (recommendedPath : jsstring) (w w' : W) :
  Forall safe_destination
    (rename_destinations
       (trace_of (handleRelocate engine host settings file recommendedPath w))) /\
  Forall safe_destination
    (rename_destinations
       (trace_of (after_confirm settings'
                    (handleRelocate engine host settings file recommendedPath w) w'))) /\
  Forall (eq (archiveFolder settings ++ [SLASH] ++ path file))
    (rename_destinations (trace_of (handleArchive host settings file w))) /\
  Forall (eq (archiveFolder settings ++ [SLASH] ++ path file))
    (rename_destinations
       (trace_of (after_confirm settings' (handleArchive host settings file w) w'))).
Proof.
  pose proof (@handleRelocate_renames engine W host safe_destination settings settings'
                file recommendedPath w w' (@isValidVaultPath_safe _)) as [H1 H2].
  pose proof (@handleArchive_renames W host
                (eq (archiveFolder settings ++ [SLASH] ++ path file))
                settings settings' file w w' eq_refl) as [H3 H4].
  repeat split; assumption.
Qed.

(** C1, as the specification words it, fails for the archive action: with the
    archive folder [/Archive] the note [Inbox/Note.md] is renamed to
    [/Archive/Inbox/Note.md], which begins with [/]. *)
Lemma archive_rename_to_absolute_path :
  rename_destinations
    (trace_of (handleArchive memory_host (settings_without_dialog "/Archive")
                 inbox_note inbox_vault)) =
  [str "/Archive/Inbox/Note.md"] /\
  begins_with_slash (str "/Archive/Inbox/Note.md") /\
  ~ safe_destination (str "/Archive/Inbox/Note.md").
Proof.
  assert (Hs : begins_with_slash (str "/Archive/Inbox/Note.md"))
    by (now exists (str "Archive/Inbox/Note.md")).
  repeat split; [exact Hs|]. intros [Hno _]. now apply Hno.
Qed.

(** C8.  When the lookup finds something at the destination, [archiveFile]
    and [relocateFile] make that one lookup, show the notice and return: no
    folder is created, nothing is renamed, and the host's state is the one
    they started from. *)
Theorem existing_destination_aborts (engine : jsstring -> option (jsstring -> bool))
    (W : Type) (host : Host W) (settings : FileMoverSettings)
    (file : TFile) (destination : jsstring) (w : W) (existing : TAbstractFile) :
  getAbstractFileByPath host w destination = Some existing ->
  archiveFile host file destination w =
  (Ok tt, w,
   [GetAbstractFileByPath destination;
    Notice (str "Cannot archive: file already exists at " ++ destination)]) /\
  relocateFile engine host settings file destination w =
  (Ok tt, w,
   [GetAbstractFileByPath destination;
    Notice (str "Cannot move: file already exists at " ++ destination)]).
Proof.
  intros H.
  unfold archiveFile, relocateFile, try_catch, bind, vault_getAbstractFileByPath,
    call, new_Notice, emit.
  rewrite H. split; reflexivity.
Qed.

Lemma existing_destination_aborts_witness :
  archiveFile memory_host inbox_note (str "03_Areas/Taken.md") inbox_vault =
  (Ok tt, inbox_vault,
   [GetAbstractFileByPath (str "03_Areas/Taken.md");
    Notice (str "Cannot archive: file already exists at 03_Areas/Taken.md")]) /\
  relocateFile rejecting_engine memory_host DEFAULT_SETTINGS inbox_note
    (str "03_Areas/Taken.md") inbox_vault =
  (Ok tt, inbox_vault,
   [GetAbstractFileByPath (str "03_Areas/Taken.md");
    Notice (str "Cannot move: file already exists at 03_Areas/Taken.md")]).
Proof.
  exact (@existing_destination_aborts rejecting_engine vault memory_host DEFAULT_SETTINGS
           inbox_note (str "03_Areas/Taken.md") inbox_vault
           (IsFile (file_at (str "03_Areas/Taken.md"))) eq_refl).
Defined.

(** C9.  When the destination of a relocate request fails the validation,
    [handleRelocate] shows the notice and returns: no dialog is opened, and
    there is no lookup, no folder creation and no rename; the host's state is
    the one it started from. *)
Theorem invalid_destination_aborts (engine : jsstring -> option (jsstring -> bool))
    (W : Type) (host : Host W) (settings : FileMoverSettings)
    (file : TFile) (recommendedPath : jsstring) (w : W) :
  isValidVaultPath (relocate_destination recommendedPath) = false ->
  handleRelocate engine host settings file recommendedPath w =
  (Ok None, w,
   [Notice (str "Invalid path: must be a relative path within the vault")]).
Proof.
  intros H. unfold handleRelocate. rewrite H. reflexivity.
Qed.

Lemma invalid_destination_aborts_witness :
  handleRelocate rejecting_engine memory_host DEFAULT_SETTINGS inbox_note
    (str "../secret") inbox_vault =
  (Ok None, inbox_vault,
   [Notice (str "Invalid path: must be a relative path within the vault")]).
Proof.
  exact (@invalid_destination_aborts rejecting_engine vault memory_host DEFAULT_SETTINGS
           inbox_note (str "../secret") inbox_vault eq_refl).
Defined.

(** C10.  When nothing is at the destination, the parent folders are in
    place, the rename succeeds, and the lookup of the destination after the
    rename yields nothing or a folder, then [relocateFile] does not call
    [vault.process] and still ends with the notice [Moved to <destination>]. *)
Theorem unresolved_moved_file_skips_rewrite
    (engine : jsstring -> option (jsstring -> bool))
    (W : Type) (host : Host W) (settings : FileMoverSettings)
    (file : TFile) (destination : jsstring) (w w1 w2 : W) (t1 : list event) :
  getAbstractFileByPath host w destination = None ->
  ensureParentFolders host destination w = (Ok tt, w1, t1) ->
  renameFile host w1 file destination = (Ok tt, w2) ->
  (getAbstractFileByPath host w2 destination = None \/
   exists folder, getAbstractFileByPath host w2 destination = Some (IsFolder folder)) ->
  relocateFile engine host settings file destination w =
  (Ok tt, w2,
   GetAbstractFileByPath destination ::
   t1 ++
   [RenameFile file destination;
    GetAbstractFileByPath destination;
    Notice (str "Moved to " ++ destination)]).
Proof.
  intros Hfree Hfolders Hrename Hmoved.
  unfold relocateFile, try_catch, bind, vault_getAbstractFileByPath,
    fileManager_renameFile, call, new_Notice, emit.
  rewrite Hfree, Hfolders, Hrename.
  destruct Hmoved as [-> | [folder ->]]; reflexivity.
Qed.

Lemma unresolved_moved_file_skips_rewrite_witness :
  relocateFile rejecting_engine lagging_host DEFAULT_SETTINGS inbox_note
    (str "04_New/Note.md") inbox_vault =
  (Ok tt, inbox_vault ++ [(str "04_New", FolderNode)],
   [GetAbstractFileByPath (str "04_New/Note.md");
    GetAbstractFileByPath (str "04_New");
    CreateFolder (str "04_New");
    RenameFile inbox_note (str "04_New/Note.md");
    GetAbstractFileByPath (str "04_New/Note.md");
    Notice (str "Moved to 04_New/Note.md")]).
Proof.
  exact (@unresolved_moved_file_skips_rewrite rejecting_engine vault lagging_host
           DEFAULT_SETTINGS inbox_note (str "04_New/Note.md")
           inbox_vault (inbox_vault ++ [(str "04_New", FolderNode)])
           (inbox_vault ++ [(str "04_New", FolderNode)])
           [GetAbstractFileByPath (str "04_New"); CreateFolder (str "04_New")]
           eq_refl eq_refl eq_refl (or_introl eq_refl)).
Defined.

Example archive_destination_example :
  archive_destination DEFAULT_SETTINGS (str "03_Areas/Note.md") =
  str "90_Archive/03_Areas/Note.md".
Proof. reflexivity. Qed.

(** A relocate request on the in-memory vault, from the click to the
    rewritten note. *)
Example relocate_end_to_end :
  handleRelocate rejecting_engine memory_host (settings_without_dialog "90_Archive")
    inbox_note (str "03_Areas/Note") inbox_vault =
  (Ok None,
   [(str "03_Areas/Note.md",
     FileNode (document ["---"; "tags: [a, b]"; "---"; "body text"]%string));
    (str "Inbox", FolderNode);
    (str "03_Areas", FolderNode);
    (str "03_Areas/Taken.md", FileNode (str "already here"))],
   [GetAbstractFileByPath (str "03_Areas/Note.md");
    GetAbstractFileByPath (str "03_Areas");
    RenameFile inbox_note (str "03_Areas/Note.md");
    GetAbstractFileByPath (str "03_Areas/Note.md");
    Process (file_at (str "03_Areas/Note.md"));
    Notice (str "Moved to 03_Areas/Note.md")]).
Proof. reflexivity. Qed.

(** * Further properties *)

(** ** Splitting and joining *)

Lemma join_cons (sep p : jsstring) (q : jsstring) (rest : list jsstring) :
  join sep (p :: q :: rest) = p ++ sep ++ join sep (q :: rest).
Proof. reflexivity. Qed.

(** [s.split(sep).join(sep)] is [s]. *)
Lemma join_split (sep : code_unit) (s : jsstring) :
  join [sep] (split sep s) = s.
Proof.
  induction s as [|c t IH]; [reflexivity|].
  cbn [split]. destruct (N.eqb_spec c sep) as [->|Hc].
  - destruct (split sep t) as [|seg segs] eqn:E; [now apply split_nonempty in E|].
    rewrite join_cons, IH. reflexivity.
  - destruct (split sep t) as [|seg segs] eqn:E; [now apply split_nonempty in E|].
    destruct segs as [|seg' segs'].
    + simpl in *. now rewrite IH.
    + rewrite join_cons. rewrite join_cons in IH. rewrite <- IH. reflexivity.
Qed.

Lemma split_no_sep (sep : code_unit) (s : jsstring) :
  ~ In sep s -> split sep s = [s].
Proof.
  induction s as [|c t IH]; intros Hno; [reflexivity|].
  cbn [split]. destruct (N.eqb_spec c sep) as [->|Hc].
  - exfalso. apply Hno. now left.
  - rewrite IH; [reflexivity|]. intros H. apply Hno. now right.
Qed.

Lemma split_app_sep (sep : code_unit) (a b : jsstring) :
  split sep (a ++ sep :: b) = split sep a ++ split sep b.
Proof.
  induction a as [|c a IH].
  - simpl. now rewrite N.eqb_refl.
  - cbn [app split]. rewrite IH. destruct (N.eqb c sep); [reflexivity|].
    destruct (split sep a) as [|seg segs] eqn:E; [now apply split_nonempty in E|].
    reflexivity.
Qed.

(** [lines.join(sep).split(sep)] gives the lines back when there is a line
    and no line contains the separator. *)
Lemma split_join (sep : code_unit) (lines : list jsstring) :
  lines <> [] ->
  (forall l, In l lines -> ~ In sep l) ->
  split sep (join [sep] lines) = lines.
Proof.
  induction lines as [|l lines IH]; intros Hne Hno; [congruence|].
  destruct lines as [|l' lines'].
  - simpl. apply split_no_sep. apply Hno. now left.
  - rewrite join_cons. cbn [app]. rewrite split_app_sep.
    rewrite split_no_sep by (apply Hno; now left).
    rewrite IH; [reflexivity | discriminate |].
    intros x Hx. apply Hno. now right.
Qed.

(** No segment of a split contains the separator. *)
Lemma split_segments_no_sep (sep : code_unit) (s : jsstring) :
  forall seg, In seg (split sep s) -> ~ In sep seg.
Proof.
  induction s as [|c t IH]; intros seg Hin.
  - simpl in Hin. destruct Hin as [<-|[]]. intros [].
  - cbn [split] in Hin. destruct (N.eqb_spec c sep) as [->|Hc].
    + destruct Hin as [<-|Hin]; [intros [] | now apply IH].
    + destruct (split sep t) as [|h segs] eqn:E; [now apply split_nonempty in E|].
      destruct Hin as [<-|Hin].
      * intros [H|H]; [congruence|]. apply (IH h); [now left | assumption].
      * apply IH. now right.
Qed.

(** Every character of a segment is a character of the string. *)
Lemma split_segments_chars (sep : code_unit) (s : jsstring) (c : code_unit) :
  forall seg, In seg (split sep s) -> In c seg -> In c s.
Proof.
  intros seg Hseg Hc. rewrite <- (join_split sep s).
  clear -Hseg Hc. induction (split sep s) as [|l lines IH]; [contradiction|].
  destruct lines as [|l' lines'].
  - destruct Hseg as [<-|[]]. exact Hc.
  - rewrite join_cons. destruct Hseg as [<-|Hseg].
    + apply in_or_app. now left.
    + apply in_or_app. right. apply in_or_app. right. now apply IH.
Qed.


(** A prefix without the separator is a prefix of the first segment. *)
Lemma startsWith_first_segment (sep : code_unit) (p : jsstring) :
  ~ In sep p ->
  forall t, startsWith (hd [] (split sep t)) p = startsWith t p.
Proof.
  induction p as [|x p IH]; intros Hno t; [reflexivity|].
  assert (Hx : x <> sep) by (intros ->; apply Hno; now left).
  assert (Hp : ~ In sep p) by (intros H; apply Hno; now right).
  destruct t as [|c t]; [reflexivity|].
  cbn [split]. destruct (N.eqb_spec c sep) as [->|Hc].
  - cbn [hd startsWith]. destruct (N.eqb_spec sep x); [congruence | reflexivity].
  - destruct (split sep t) as [|seg segs] eqn:E; [now apply split_nonempty in E|].
    cbn [hd startsWith]. specialize (IH Hp t). rewrite E in IH. cbn [hd] in IH.
    now rewrite IH.
Qed.

(** The closing delimiter occurs in a text exactly when one of its lines
    after the first begins with [---]. *)
Lemma occurs_close_lines (s : jsstring) :
  occurs_b FENCE_CLOSE s =
  existsb (fun l => startsWith l FENCE) (tl (split NL s)).
Proof.
  assert (Hf : ~ In NL FENCE) by (vm_compute; intuition discriminate).
  induction s as [|c t IH]; [reflexivity|].
  cbn [occurs_b split]. unfold FENCE_CLOSE at 1. cbn [startsWith].
  destruct (N.eqb_spec c NL) as [->|Hc].
  - cbn [tl andb]. rewrite IH.
    rewrite <- (@startsWith_first_segment NL FENCE Hf t).
    destruct (split NL t) as [|seg segs] eqn:E; [now apply split_nonempty in E|].
    reflexivity.
  - cbn [andb orb]. rewrite IH.
    destruct (split NL t) as [|seg segs] eqn:E; [now apply split_nonempty in E|].
    reflexivity.
Qed.

Lemma tl_filter_incl (A : Type) (f : A -> bool) (l : list A) :
  forall x, In x (tl (filter f l)) -> In x (tl l).
Proof.
  destruct l as [|a l]; [intros x []|]. intros x. cbn [filter tl].
  destruct (f a); cbn [tl].
  - intros H. apply filter_In in H. tauto.
  - intros H. apply in_tl in H. apply filter_In in H. tauto.
Qed.

Lemma filter_idempotent (A : Type) (f : A -> bool) (l : list A) :
  filter f (filter f l) = filter f l.
Proof.
  induction l as [|a l IH]; [reflexivity|]. simpl.
  destruct (f a) eqn:E; simpl; [rewrite E; now rewrite IH | assumption].
Qed.


(** ** The rewriter: what it keeps, what it leaves alone, when it throws *)

(** X1.  A document that is not of the shape [---], newline, block, newline,
    [---], rest is returned as it is, for every property name (also one that
    the engine would reject as a pattern). *)
Theorem document_without_fence_unchanged (engine : jsstring -> option (jsstring -> bool))
    (propName content : jsstring) :
  (forall block body, content <> FENCE_OPEN ++ block ++ FENCE_CLOSE ++ body) ->
  rewrite_frontmatter engine propName content = Ok content.
Proof.
  intros Hno. unfold rewrite_frontmatter, js_match.
  now rewrite (exec_frontmatter_none Hno).
Qed.

Lemma document_without_fence_unchanged_witness :
  rewrite_frontmatter rejecting_engine (str "a(b")
    (document ["# Title"; "---"; "recommended_path: x"; "---"]%string) =
  Ok (document ["# Title"; "---"; "recommended_path: x"; "---"]%string).
Proof.
  apply document_without_fence_unchanged.
  intros block body H. vm_compute in H. discriminate.
Defined.

Lemma kept_lines_plain (propName block : jsstring) :
  ~ In DOLLAR block ->
  forall l, In l (filter (fun l => negb (field_line propName l)) (split NL block)) ->
            ~ In DOLLAR l.
Proof.
  intros Hno l Hl Hin. apply filter_In in Hl as [Hl _].
  apply Hno. exact (split_segments_chars NL block DOLLAR l Hl Hin).
Qed.

(** X2.  For a property name without pattern syntax characters and a fenced
    document whose block has no [$]: when a kept line is not blank, the
    result is the opening line, the kept lines in their order joined by
    newlines, the closing delimiter and then the rest of the document, of
    which no character changes. *)
Theorem fence_reassembled_from_kept_lines
    (engine : jsstring -> option (jsstring -> bool))
    (propName content block body : jsstring) :
  literal_source propName = true ->
  fenced content block body ->
  ~ In DOLLAR block ->
  let kept := filter (fun l => negb (field_line propName l)) (split NL block) in
  forallb (forallb is_space) kept = false ->
  rewrite_frontmatter engine propName content =
  Ok (FENCE_OPEN ++ join [NL] kept ++ FENCE_CLOSE ++ body).
Proof.
  intros Hlit Hf Hplain kept Hblank.
  apply rewrite_frontmatter_reassembles with (block := block).
  - exact Hf.
  - now apply filter_lines_literal.
  - now rewrite forallb_is_blank.
  - now apply kept_lines_plain.
Qed.

Lemma fence_reassembled_from_kept_lines_witness :
  rewrite_frontmatter rejecting_engine (str "recommended_path")
    (document ["---"; "title: Plan"; "recommended_path : 03_Areas/Plan.md"; "";
               "tags: [a]"; "---"; "body"; "---"; "more"]%string) =
  Ok (document ["---"; "title: Plan"; ""; "tags: [a]"; "---"; "body"; "---";
                "more"]%string).
Proof.
  exact (@fence_reassembled_from_kept_lines rejecting_engine (str "recommended_path")
           (document ["---"; "title: Plan"; "recommended_path : 03_Areas/Plan.md"; "";
                      "tags: [a]"; "---"; "body"; "---"; "more"]%string)
           (document ["title: Plan"; "recommended_path : 03_Areas/Plan.md"; "";
                      "tags: [a]"]%string)
           (document [""; "body"; "---"; "more"]%string)
           eq_refl (conj eq_refl eq_refl)
           ltac:(vm_compute; intuition discriminate) eq_refl).
Defined.



(** X4.  Under the conditions of X2 the result is again a fenced document,
    none of its block's lines is a line of the property, and rewriting it
    once more returns it as it is. *)
Theorem rewrite_frontmatter_idempotent
    (engine : jsstring -> option (jsstring -> bool))
    (propName content block body : jsstring) :
  literal_source propName = true ->
  fenced content block body ->
  ~ In DOLLAR block ->
  let kept := filter (fun l => negb (field_line propName l)) (split NL block) in
  forallb (forallb is_space) kept = false ->
  let result := FENCE_OPEN ++ join [NL] kept ++ FENCE_CLOSE ++ body in
  rewrite_frontmatter engine propName content = Ok result /\
  fenced result (join [NL] kept) body /\
  forallb (fun l => negb (field_line propName l)) (split NL (join [NL] kept)) = true /\
  rewrite_frontmatter engine propName result = Ok result.
Proof.
  intros Hlit Hf Hplain kept Hblank result.
  assert (Hne : kept <> []) by (intros E; rewrite E in Hblank; discriminate).
  assert (Hnl : forall l, In l kept -> ~ In NL l).
  { intros l Hl. apply filter_In in Hl as [Hl _].
    now apply split_segments_no_sep with (s := block). }
  assert (Hsplit : split NL (join [NL] kept) = kept) by now apply split_join.
  assert (Hfenced : fenced result (join [NL] kept) body).
  { split; [reflexivity|].
    rewrite occurs_close_lines, Hsplit.
    destruct (existsb (fun l => startsWith l FENCE) (tl kept)) eqn:E; [|reflexivity].
    apply existsb_exists in E as [x [Hx Hsw]].
    apply tl_filter_incl in Hx.
    destruct Hf as [_ Hno]. rewrite occurs_close_lines in Hno.
    assert (Ht : existsb (fun l => startsWith l FENCE) (tl (split NL block)) = true)
      by (apply existsb_exists; now exists x).
    congruence. }
  assert (Hfirst : rewrite_frontmatter engine propName content = Ok result).
  { apply rewrite_frontmatter_reassembles with (block := block).
    - exact Hf.
    - now apply filter_lines_literal.
    - now rewrite forallb_is_blank.
    - now apply kept_lines_plain. }
  repeat split; try assumption.
  - apply Hfenced.
  - rewrite Hsplit. apply forallb_forall. intros l Hl.
    apply filter_In in Hl. tauto.
  - apply rewrite_frontmatter_reassembles with (block := join [NL] kept).
    + exact Hfenced.
    + rewrite filter_lines_literal by assumption. rewrite Hsplit.
      unfold kept. now rewrite filter_idempotent.
    + now rewrite forallb_is_blank.
    + now apply kept_lines_plain.
Qed.

Lemma rewrite_frontmatter_idempotent_witness :
  rewrite_frontmatter rejecting_engine (str "recommended_path")
    (document ["---"; "tags: [a, b]"; "---"; "body text"]%string) =
  Ok (document ["---"; "tags: [a, b]"; "---"; "body text"]%string).
Proof.
  exact (proj2 (proj2 (proj2
           (@rewrite_frontmatter_idempotent rejecting_engine (str "recommended_path")
              note_with_tags
              (document ["recommended_path: 03_Areas/Note.md"; "tags: [a, b]"]%string)
              ([NL] ++ str "body text")
              eq_refl (conj eq_refl eq_refl)
              ltac:(vm_compute; intuition discriminate) eq_refl)))).
Defined.

(** X5.  The pattern is only built while the lines of a fence are filtered:
    with a property name that the engine rejects as a pattern, the rewriter
    throws on every fenced document, whatever its lines are. *)
Theorem rejected_property_name_throws
    (engine : jsstring -> option (jsstring -> bool))
    (propName content block body : jsstring) :
  literal_source propName = false ->
  engine (property_pattern_source propName) = None ->
  fenced content block body ->
  exists e, rewrite_frontmatter engine propName content = Throw e.
Proof.
  intros Hlit Hrej [-> Hno]. apply occurs_b_false in Hno.
  unfold rewrite_frontmatter, js_match. rewrite exec_frontmatter by assumption.
  cbn [matched groups nth].
  destruct (split NL block) as [|l lines] eqn:E; [now apply split_nonempty in E|].
  cbn [filter_lines]. unfold property_line. rewrite Hlit, Hrej. eauto.
Qed.

Lemma rejected_property_name_throws_witness :
  exists e,
    rewrite_frontmatter rejecting_engine (str "path(") note_with_tags = Throw e.
Proof.
  exact (@rejected_property_name_throws rejecting_engine (str "path(") note_with_tags
           (document ["recommended_path: 03_Areas/Note.md"; "tags: [a, b]"]%string)
           ([NL] ++ str "body text")
           eq_refl eq_refl (conj eq_refl eq_refl)).
Defined.

(** ** The validator on joined paths *)

Lemma replace_all_char_app (c d : code_unit) (a b : jsstring) :
  replace_all_char c d (a ++ b) = replace_all_char c d a ++ replace_all_char c d b.
Proof. unfold replace_all_char. apply map_app. Qed.

Lemma normalised_segments_join (a b : jsstring) :
  split SLASH (replace_all_char BACKSLASH SLASH (a ++ [SLASH] ++ b)) =
  split SLASH (replace_all_char BACKSLASH SLASH a) ++
  split SLASH (replace_all_char BACKSLASH SLASH b).
Proof.
  rewrite replace_all_char_app. cbn [app replace_all_char map].
  change (N.eqb SLASH BACKSLASH) with false. cbv iota.
  apply split_app_sep.
Qed.

(** Joining two accepted paths with [/] gives an accepted path, when the
    first is not empty. *)
Lemma isValidVaultPath_join (p q : jsstring) :
  isValidVaultPath p = true -> p <> [] -> isValidVaultPath q = true ->
  isValidVaultPath (p ++ [SLASH] ++ q) = true.
Proof.
  rewrite !isValidVaultPath_cases, !andb_true_iff, !negb_true_iff.
  intros [[Hd Hs] Hseg] Hne [_ Hq]. repeat split.
  - destruct (test re_drive (p ++ [SLASH] ++ q)) eqn:E; [|reflexivity].
    apply test_re_drive_iff in E as [c [t [Hc E]]].
    assert (Hp : has_drive_prefix p).
    { destruct p as [|x [|y p']]; [congruence | |].
      - simpl in E. injection E as _ E _. discriminate.
      - simpl in E. injection E as -> -> _. now exists c, p'. }
    apply test_re_drive_iff in Hp. congruence.
  - destruct p as [|x p']; [congruence|]. exact Hs.
  - rewrite normalised_segments_join, existsb_app, Hseg, Hq. reflexivity.
Qed.

(** A folder above an accepted path is an accepted path. *)
Lemma isValidVaultPath_ancestor (a tail : jsstring) :
  isValidVaultPath (a ++ [SLASH] ++ tail) = true -> isValidVaultPath a = true.
Proof.
  rewrite !isValidVaultPath_cases, !andb_true_iff, !negb_true_iff.
  rewrite normalised_segments_join, existsb_app, orb_false_iff.
  intros [[Hd Hs] [Hseg _]]. repeat split.
  - destruct (test re_drive a) eqn:E; [|reflexivity].
    apply test_re_drive_iff in E as [c [t [Hc ->]]].
    assert (Hp : has_drive_prefix ((c :: COLON :: t) ++ [SLASH] ++ tail))
      by (now exists c, (t ++ [SLASH] ++ tail)).
    apply test_re_drive_iff in Hp. congruence.
  - destruct a as [|x a']; [reflexivity|]. exact Hs.
  - exact Hseg.
Qed.

(** X6.  When the archive folder of the settings is not empty and passes the
    validator, and the file's path passes it, every rename that an archive
    request issues, at once or from the dialog, goes to a destination that
    passes the validator: it does not begin with [/], has no drive prefix and
    no [..] segment. *)
Theorem archive_renames_safe_for_valid_settings
    (W : Type) (host : Host W) (settings settings' : FileMoverSettings)
    (file : TFile) (w w' : W) :
  isValidVaultPath (archiveFolder settings) = true ->
  archiveFolder settings <> [] ->
  isValidVaultPath (path file) = true ->
  let safe := fun d => isValidVaultPath d = true /\ safe_destination d in
  Forall safe (rename_destinations (trace_of (handleArchive host settings file w))) /\
  Forall safe
    (rename_destinations
       (trace_of (after_confirm settings' (handleArchive host settings file w) w'))).
Proof.
  intros Hfolder Hne Hpath safe.
  apply handleArchive_renames. unfold safe, archive_destination.
  assert (Hv : isValidVaultPath (archiveFolder settings ++ [SLASH] ++ path file) = true)
    by now apply isValidVaultPath_join.
  split; [exact Hv | now apply isValidVaultPath_safe].
Qed.

Lemma archive_renames_safe_for_valid_settings_witness :
  Forall (fun d => isValidVaultPath d = true /\ safe_destination d)
    (rename_destinations
       (trace_of (handleArchive memory_host (settings_without_dialog "90_Archive")
                    inbox_note inbox_vault))).
Proof.
  exact (proj1 (@archive_renames_safe_for_valid_settings vault memory_host
                  (settings_without_dialog "90_Archive") DEFAULT_SETTINGS
                  inbox_note inbox_vault inbox_vault
                  eq_refl ltac:(discriminate) eq_refl)).
Defined.

(** ** The parent folders *)

Lemma looked_up_app (a b : list event) :
  looked_up (a ++ b) = looked_up a ++ looked_up b.
Proof.
  induction a as [|ev a IH]; [reflexivity|]. destruct ev; simpl; now rewrite ?IH.
Qed.

Lemma created_folders_app (a b : list event) :
  created_folders (a ++ b) = created_folders a ++ created_folders b.
Proof.
  induction a as [|ev a IH]; [reflexivity|]. destruct ev; simpl; now rewrite ?IH.
Qed.

Lemma notices_app (a b : list event) :
  notices (a ++ b) = notices a ++ notices b.
Proof.
  induction a as [|ev a IH]; [reflexivity|]. destruct ev; simpl; now rewrite ?IH.
Qed.

Lemma processed_app (a b : list event) :
  processed (a ++ b) = processed a ++ processed b.
Proof.
  induction a as [|ev a IH]; [reflexivity|]. destruct ev; simpl; now rewrite ?IH.
Qed.

(** A trace of lookups and folder creations has no rename, notice or
    rewrite, and its folders are among the paths it names. *)
Lemma folder_calls_only (qs : list jsstring) (t : list event) :
  Forall (folder_call qs) t ->
  rename_destinations t = [] /\ notices t = [] /\ processed t = [] /\
  incl (looked_up t) qs /\ incl (created_folders t) qs.
Proof.
  induction 1 as [|ev t Hev _ IH]; [repeat split; intros x []|].
  destruct IH as [Hr [Hn [Hp [Hl Hc]]]].
  destruct ev; simpl in Hev; try contradiction; simpl; repeat split; try assumption.
  - intros x [<-|Hx]; [assumption | now apply Hl].
  - intros x [<-|Hx]; [assumption | now apply Hc].
Qed.

Lemma visited_from (parts : list jsstring) :
  forall current, current <> [] ->
  visited current parts = map (fun q => current ++ [SLASH] ++ q) (folder_prefixes parts).
Proof.
  induction parts as [|p more IH]; intros current Hne; [reflexivity|].
  cbn [visited folder_prefixes map].
  destruct current as [|c current']; [congruence|].
  f_equal. rewrite IH by (destruct current'; discriminate).
  rewrite map_map. apply map_ext. intros q. now rewrite <- !app_assoc.
Qed.

Lemma removelast_split_cons (c : code_unit) (t : jsstring) :
  c <> SLASH ->
  removelast (split SLASH (c :: t)) = [] \/
  exists seg more, removelast (split SLASH (c :: t)) = (c :: seg) :: more.
Proof.
  intros Hc. cbn [split]. destruct (N.eqb_spec c SLASH); [congruence|].
  destruct (split SLASH t) as [|seg segs] eqn:E; [now apply split_nonempty in E|].
  destruct segs as [|s' segs']; [now left|].
  right. exists seg, (removelast (s' :: segs')). reflexivity.
Qed.

(** For a path that does not begin with [/], the loop goes through the
    folders above the file. *)
Lemma visited_ancestors (filePath : jsstring) :
  ~ begins_with_slash filePath ->
  visited [] (removelast (split SLASH filePath)) = ancestors filePath.
Proof.
  intros Hno. unfold ancestors. destruct filePath as [|c t]; [reflexivity|].
  assert (Hc : c <> SLASH) by (intros ->; apply Hno; now exists t).
  destruct (removelast_split_cons t Hc) as [->|[seg [more ->]]]; [reflexivity|].
  cbn [visited folder_prefixes]. f_equal. now apply visited_from.
Qed.

Lemma folder_prefixes_above (parts : list jsstring) (fileName : jsstring) :
  forall a, In a (folder_prefixes parts) ->
  exists tail, join [SLASH] (parts ++ [fileName]) = a ++ [SLASH] ++ tail.
Proof.
  induction parts as [|p more IH]; intros a Hin; [contradiction|].
  assert (Hj : join [SLASH] ((p :: more) ++ [fileName]) =
               p ++ [SLASH] ++ join [SLASH] (more ++ [fileName])).
  { destruct more; reflexivity. }
  rewrite Hj. destruct Hin as [<-|Hin].
  - now exists (join [SLASH] (more ++ [fileName])).
  - apply in_map_iff in Hin as [q [<- Hq]].
    destruct (IH q Hq) as [tail ->]. exists tail. now rewrite <- !app_assoc.
Qed.

(** Every folder above a file is a prefix of its path, up to a [/]. *)
Lemma ancestors_above (filePath : jsstring) :
  forall a, In a (ancestors filePath) ->
  exists tail, filePath = a ++ [SLASH] ++ tail.
Proof.
  intros a Hin. unfold ancestors in Hin.
  destruct (folder_prefixes_above _ (last (split SLASH filePath) []) a Hin) as [tail Ht].
  exists tail. rewrite <- Ht. symmetry.
  etransitivity; [|apply join_split]. f_equal. symmetry.
  apply app_removelast_last. apply split_nonempty.
Qed.

Section ParentFolders.
Variable W : Type.
Variable host : Host W.

(** One turn of the loop. *)
Lemma ensure_loop_step (current part : jsstring) (more : list jsstring) (w : W) :
  let current' :=
    match current with
    | [] => part
    | _ :: _ => current ++ [SLASH] ++ part
    end in
  ensure_loop host current (part :: more) w =
  match getAbstractFileByPath host w current' with
  | Some _ =>
      match ensure_loop host current' more w with
      | (r, w1, t1) => (r, w1, GetAbstractFileByPath current' :: t1)
      end
  | None =>
      match createFolder host w current' with
      | (Ok _, w0) =>
          match ensure_loop host current' more w0 with
          | (r, w1, t1) =>
              (r, w1, GetAbstractFileByPath current' :: CreateFolder current' :: t1)
          end
      | (Throw e, w0) =>
          (Throw e, w0, [GetAbstractFileByPath current'; CreateFolder current'])
      end
  end.
Proof.
  intros current'. cbn [ensure_loop]. fold current'.
  unfold bind, vault_getAbstractFileByPath, vault_createFolder, call, ret.
  destruct (getAbstractFileByPath host w current').
  - destruct (ensure_loop host current' more w) as [[r w1] t1]. reflexivity.
  - destruct (createFolder host w current') as [[[]|e] w0]; [|reflexivity].
    destruct (ensure_loop host current' more w0) as [[r w1] t1]. reflexivity.
Qed.

(** What the loop does, whatever the host answers: it looks each folder up
    in turn, creates only what it has just looked up, and goes through all of
    them unless a creation throws. *)
Lemma ensure_loop_trace (parts : list jsstring) :
  forall current w,
    Forall (folder_call (visited current parts))
      (trace_of (ensure_loop host current parts w)) /\
    (exists n, looked_up (trace_of (ensure_loop host current parts w)) =
               firstn n (visited current parts)) /\
    (result_of (ensure_loop host current parts w) = Ok tt ->
     looked_up (trace_of (ensure_loop host current parts w)) = visited current parts) /\
    incl (created_folders (trace_of (ensure_loop host current parts w)))
         (looked_up (trace_of (ensure_loop host current parts w))).
Proof.
  induction parts as [|part more IH]; intros current w.
  - cbn. repeat split; [constructor | now exists 0 | intros x []].
  - rewrite ensure_loop_step. cbn [visited].
    set (current' := match current with [] => part | _ :: _ => current ++ [SLASH] ++ part end).
    assert (Hweak : forall t, Forall (folder_call (visited current' more)) t ->
                    Forall (folder_call (current' :: visited current' more)) t).
    { intros t Ht. eapply Forall_impl; [|exact Ht].
      intros [] H; simpl in *; auto. }
    destruct (getAbstractFileByPath host w current') as [existing|].
    + specialize (IH current' w).
      destruct (ensure_loop host current' more w) as [[r w1] t1].
      unfold trace_of, result_of in *. cbn [fst snd looked_up created_folders] in *.
      destruct IH as [Hcalls [[n Hn] [Hok Hincl]]]. repeat split.
      * constructor; [now left | now apply Hweak].
      * exists (S n). cbn [firstn]. now rewrite Hn.
      * intros Hr. now rewrite Hok.
      * intros x Hx. right. now apply Hincl.
    + destruct (createFolder host w current') as [[[]|e] w0].
      * specialize (IH current' w0).
        destruct (ensure_loop host current' more w0) as [[r w1] t1].
        unfold trace_of, result_of in *. cbn [fst snd looked_up created_folders] in *.
        destruct IH as [Hcalls [[n Hn] [Hok Hincl]]]. repeat split.
        -- constructor; [now left|]. constructor; [now left | now apply Hweak].
        -- exists (S n). cbn [firstn]. now rewrite Hn.
        -- intros Hr. now rewrite Hok.
        -- intros x [<-|Hx]; [now left | right; now apply Hincl].
      * unfold trace_of, result_of. cbn [fst snd looked_up created_folders].
        repeat split.
        -- constructor; [now left|]. constructor; [now left | constructor].
        -- now exists 1.
        -- discriminate.
        -- intros x [<-|[]]. now left.
Qed.

(** When every folder on the way is there, the loop only looks them up. *)
Lemma ensure_loop_all_present (parts : list jsstring) :
  forall current w,
    (forall q, In q (visited current parts) -> getAbstractFileByPath host w q <> None) ->
    ensure_loop host current parts w =
    (Ok tt, w, map GetAbstractFileByPath (visited current parts)).
Proof.
  induction parts as [|part more IH]; intros current w Hall; [reflexivity|].
  rewrite ensure_loop_step. cbn [visited map].
  set (current' := match current with [] => part | _ :: _ => current ++ [SLASH] ++ part end) in *.
  destruct (getAbstractFileByPath host w current') as [existing|] eqn:E.
  - rewrite (IH current' w); [reflexivity|].
    intros q Hq. apply Hall. cbn [visited]. now right.
  - exfalso. apply (Hall current'); [cbn [visited]; now left | exact E].
Qed.

End ParentFolders.

(** X7.  For a file path that does not begin with [/], [ensureParentFolders]
    makes only lookups and folder creations, all at folders above the file;
    it looks the folders up from the shallowest to the deepest, all of them
    when it returns without an exception; it creates only folders that it has
    looked up; and each of these folders is the path up to one of its [/]. *)
Theorem ensureParentFolders_walks_ancestors
    (W : Type) (host : Host W) (filePath : jsstring) (w : W) :
  ~ begins_with_slash filePath ->
  Forall (folder_call (ancestors filePath))
    (trace_of (ensureParentFolders host filePath w)) /\
  (exists n, looked_up (trace_of (ensureParentFolders host filePath w)) =
             firstn n (ancestors filePath)) /\
  (result_of (ensureParentFolders host filePath w) = Ok tt ->
   looked_up (trace_of (ensureParentFolders host filePath w)) = ancestors filePath) /\
  incl (created_folders (trace_of (ensureParentFolders host filePath w)))
       (looked_up (trace_of (ensureParentFolders host filePath w))) /\
  (forall a, In a (ancestors filePath) -> exists tail, filePath = a ++ [SLASH] ++ tail).
Proof.
  intros Hno. unfold ensureParentFolders.
  pose proof (ensure_loop_trace host (removelast (split SLASH filePath)) [] w) as H.
  rewrite (visited_ancestors Hno) in H.
  destruct H as [H1 [H2 [H3 H4]]]. repeat split; try assumption.
  apply ancestors_above.
Qed.

Lemma ensureParentFolders_walks_ancestors_witness :
  looked_up (trace_of (ensureParentFolders memory_host (str "03_Areas/2026/Q1/Plan.md")
                         inbox_vault)) =
  [str "03_Areas"; str "03_Areas/2026"; str "03_Areas/2026/Q1"].
Proof.
  refine (proj1 (proj2 (proj2
            (@ensureParentFolders_walks_ancestors vault memory_host
               (str "03_Areas/2026/Q1/Plan.md") inbox_vault _))) eq_refl).
  intros [tail H]. discriminate H.
Defined.

(** X8.  For a file path that does not begin with [/]: when every folder
    above the file is in the vault, [ensureParentFolders] looks each of them
    up, creates nothing, returns without an exception and leaves the host's
    state as it was. *)
Theorem ensureParentFolders_creates_nothing_when_present
    (W : Type) (host : Host W) (filePath : jsstring) (w : W) :
  ~ begins_with_slash filePath ->
  (forall a, In a (ancestors filePath) -> getAbstractFileByPath host w a <> None) ->
  ensureParentFolders host filePath w =
  (Ok tt, w, map GetAbstractFileByPath (ancestors filePath)).
Proof.
  intros Hno Hall. unfold ensureParentFolders.
  rewrite ensure_loop_all_present; rewrite (visited_ancestors Hno); [reflexivity | exact Hall].
Qed.

Lemma ensureParentFolders_creates_nothing_when_present_witness :
  ensureParentFolders memory_host (str "03_Areas/Plan.md") inbox_vault =
  (Ok tt, inbox_vault, [GetAbstractFileByPath (str "03_Areas")]).
Proof.
  apply (@ensureParentFolders_creates_nothing_when_present vault memory_host
           (str "03_Areas/Plan.md") inbox_vault).
  - intros [tail H]. discriminate H.
  - intros a [<-|[]]. discriminate.
Defined.

(** X9.  For a file path that begins with [/] the loop starts with the empty
    path: [ensureParentFolders] looks the empty path up, creates it when the
    lookup finds nothing, and then does what it does for the path without its
    first [/]; so the folders it creates are named without the [/] that the
    destination begins with. *)
Theorem ensureParentFolders_leading_slash
    (W : Type) (host : Host W) (filePath : jsstring) :
  ensureParentFolders host (SLASH :: filePath) =
  (existing <- vault_getAbstractFileByPath host [] ;;
   match existing with
   | Some _ => ret tt
   | None => vault_createFolder host []
   end ;;
   ensureParentFolders host filePath).
Proof.
  unfold ensureParentFolders. cbn [split]. rewrite N.eqb_refl.
  destruct (split SLASH filePath) as [|seg segs] eqn:E; [now apply split_nonempty in E|].
  reflexivity.
Qed.

(** ** Which folders a move can create *)

Section Calls.
Variable RegExp_general : jsstring -> option (jsstring -> bool).
Variable W : Type.
Variable host : Host W.
Variable Q : event -> Prop.

Lemma calls_only_ret (A : Type) (a : A) : calls_only (W := W) Q (ret a).
Proof. intros w. constructor. Qed.

Lemma calls_only_emit (ev : event) : Q ev -> calls_only (W := W) Q (emit ev).
Proof. intros H w. unfold emit, trace_of. simpl. auto. Qed.

Lemma calls_only_call (A : Type) (ev : event) (f : W -> outcome A * W) :
  Q ev -> calls_only Q (call ev f).
Proof.
  intros H w. unfold call, trace_of. destruct (f w) as [r w1]. simpl. auto.
Qed.

Lemma calls_only_bind (A B : Type) (m : M W A) (f : A -> M W B) :
  calls_only Q m -> (forall a, calls_only Q (f a)) -> calls_only Q (bind m f).
Proof.
  intros Hm Hf w. unfold bind, trace_of. specialize (Hm w). unfold trace_of in Hm.
  destruct (m w) as [[[a|e] w1] t1]; simpl in *; [|assumption].
  specialize (Hf a w1). unfold trace_of in Hf.
  destruct (f a w1) as [[r w2] t2]. simpl in *. apply Forall_app. now split.
Qed.

Lemma calls_only_try (A : Type) (body : M W A) (handler : jsstring -> M W A) :
  calls_only Q body -> (forall e, calls_only Q (handler e)) ->
  calls_only Q (try_catch body handler).
Proof.
  intros Hb Hh w. unfold try_catch, trace_of. specialize (Hb w). unfold trace_of in Hb.
  destruct (body w) as [[[a|e] w1] t1]; simpl in *; [assumption|].
  specialize (Hh e w1). unfold trace_of in Hh.
  destruct (handler e w1) as [[r w2] t2]. simpl in *. apply Forall_app. now split.
Qed.

End Calls.

Lemma creates_in_folders (P : jsstring -> Prop) (t : list event) :
  Forall (creates_in P) t -> Forall P (created_folders t).
Proof.
  induction 1 as [|ev t Hev _ IH]; [constructor|].
  destruct ev; simpl in *; auto.
Qed.

Section Creations.
Variable RegExp_general : jsstring -> option (jsstring -> bool).
Variable W : Type.
Variable host : Host W.
Variable P : jsstring -> Prop.

Lemma relocateFile_creates (settings : FileMoverSettings) (file : TFile)
    (destination : jsstring) :
  calls_only (creates_in P) (ensureParentFolders host destination) ->
  calls_only (creates_in P)
    (relocateFile RegExp_general host settings file destination).
Proof.
  intros He. unfold relocateFile.
  apply calls_only_try.
  - apply calls_only_bind; [now apply calls_only_call|].
    intros [existing|]; [now apply calls_only_emit|].
    apply calls_only_bind; [exact He|]. intros _.
    apply calls_only_bind; [now apply calls_only_call|]. intros _.
    apply calls_only_bind; [now apply calls_only_call|]. intros movedFile.
    apply calls_only_bind; [|intros _; now apply calls_only_emit].
    destruct movedFile as [[moved|folder]|];
      [now apply calls_only_call | apply calls_only_ret | apply calls_only_ret].
  - intros e. apply calls_only_bind; [now apply calls_only_emit|].
    intros _. now apply calls_only_emit.
Qed.

End Creations.

Lemma ensureParentFolders_creates_ancestors (W : Type) (host : Host W)
    (destination : jsstring) :
  isValidVaultPath destination = true ->
  calls_only
    (creates_in (fun q => isValidVaultPath q = true /\
                          exists tail, destination = q ++ [SLASH] ++ tail))
    (ensureParentFolders host destination).
Proof.
  intros Hvalid w.
  assert (Hno : ~ begins_with_slash destination)
    by (apply isValidVaultPath_safe in Hvalid; apply Hvalid).
  pose proof (ensure_loop_trace host (removelast (split SLASH destination)) [] w) as [H _].
  rewrite (visited_ancestors Hno) in H. unfold ensureParentFolders.
  eapply Forall_impl; [|exact H].
  intros [] Hev; simpl in *; try exact I.
  destruct (ancestors_above destination _ Hev) as [tail Ht].
  split; [|now exists tail].
  apply isValidVaultPath_ancestor with (tail := tail). now rewrite <- Ht.
Qed.

(** X10.  Every folder that a relocate request creates, at once or from the
    dialog, is a folder above the destination (the destination up to one of
    its [/]) and itself passes the validator. *)
Theorem relocate_creates_only_valid_ancestors
    (engine : jsstring -> option (jsstring -> bool))
    (W : Type) (host : Host W) (settings settings' : FileMoverSettings)
    (file : TFile) (recommendedPath : jsstring) (w w' : W) :
  let above := fun q =>
    isValidVaultPath q = true /\
    exists tail, relocate_destination recommendedPath = q ++ [SLASH] ++ tail in
  Forall above
    (created_folders
       (trace_of (handleRelocate engine host settings file recommendedPath w))) /\
  Forall above
    (created_folders
       (trace_of (after_confirm settings'
                    (handleRelocate engine host settings file recommendedPath w) w'))).
Proof.
  intros above. unfold handleRelocate.
  destruct (isValidVaultPath (relocate_destination recommendedPath)) eqn:Hvalid;
    cbn [negb].
  - pose proof (@relocateFile_creates engine W host above settings file _
                  (ensureParentFolders_creates_ancestors host _ Hvalid)) as Hs.
    pose proof (@relocateFile_creates engine W host above settings' file _
                  (ensureParentFolders_creates_ancestors host _ Hvalid)) as Hs'.
    destruct (confirmBeforeMove settings).
    + split; [constructor|]. unfold after_confirm. cbn.
      apply creates_in_folders. apply Hs'.
    + split.
      * apply creates_in_folders.
        apply (@calls_only_bind W (creates_in above) unit _
                 (relocateFile engine host settings file
                    (relocate_destination recommendedPath))
                 (fun _ => ret None)); [exact Hs | intros _; apply calls_only_ret].
      * unfold after_confirm, bind.
        destruct (relocateFile engine host settings file
                    (relocate_destination recommendedPath) w) as [[[[]|e] w1] t1];
          cbn; constructor.
  - split; cbn; constructor.
Qed.

(** ** How a move ends *)

Lemma ensureParentFolders_quiet (W : Type) (host : Host W) (filePath : jsstring) (w : W) :
  rename_destinations (trace_of (ensureParentFolders host filePath w)) = [] /\
  notices (trace_of (ensureParentFolders host filePath w)) = [] /\
  processed (trace_of (ensureParentFolders host filePath w)) = [].
Proof.
  pose proof (ensure_loop_trace host (removelast (split SLASH filePath)) [] w) as [H _].
  apply folder_calls_only in H. unfold ensureParentFolders. tauto.
Qed.

(** X11.  [archiveFile] never throws, whatever the host does, and ends in one
    of three ways: the destination is taken, and there is the lookup, the
    notice and nothing else; or the rename, which is its only one, is the
    last call before the one notice [Archived to <destination>]; or an
    exception of the host is shown in the one notice [Archive failed: <e>]
    and logged, and no rename or at most the failed one was issued. *)
Theorem archiveFile_outcomes (W : Type) (host : Host W)
    (file : TFile) (destination : jsstring) (w : W) :
  let run := archiveFile host file destination w in
  result_of run = Ok tt /\
  ((trace_of run =
      [GetAbstractFileByPath destination;
       Notice (str "Cannot archive: file already exists at " ++ destination)] /\
    state_of run = w) \/
   (notices (trace_of run) = [str "Archived to " ++ destination] /\
    rename_destinations (trace_of run) = [destination] /\
    exists t, trace_of run =
              t ++ [RenameFile file destination;
                    Notice (str "Archived to " ++ destination)]) \/
   (exists e t,
      notices (trace_of run) = [str "Archive failed: " ++ e] /\
      trace_of run =
        t ++ [Notice (str "Archive failed: " ++ e);
              ConsoleError (str "File Mover: archive failed") e] /\
      (rename_destinations (trace_of run) = [] \/
       rename_destinations (trace_of run) = [destination]))).
Proof.
  intros run. subst run.
  unfold archiveFile, try_catch, bind, vault_getAbstractFileByPath,
    fileManager_renameFile, call, new_Notice, console_error, emit.
  destruct (getAbstractFileByPath host w destination) as [existing|].
  - split; [reflexivity|]. left. split; reflexivity.
  - destruct (ensureParentFolders_quiet host destination w) as [Hr [Hn _]].
    destruct (ensureParentFolders host destination w) as [[[[]|e] w1] t1];
      unfold trace_of, result_of, state_of in *; cbn [fst snd] in *.
    + destruct (renameFile host w1 file destination) as [[[]|e] w2]; cbn [fst snd].
      * split; [reflexivity|]. right. left. split; [|split].
        -- cbn [app notices]. rewrite !notices_app, Hn. reflexivity.
        -- cbn [app rename_destinations]. rewrite !rename_destinations_app, Hr. reflexivity.
        -- exists (GetAbstractFileByPath destination :: t1).
           cbn [app]. rewrite <- ?app_assoc. reflexivity.
      * split; [reflexivity|]. right. right.
        exists e, (GetAbstractFileByPath destination :: t1 ++ [RenameFile file destination]).
        split; [|split].
        -- cbn [app notices]. rewrite !notices_app, Hn. reflexivity.
        -- cbn [app]. rewrite <- ?app_assoc. reflexivity.
        -- right. cbn [app rename_destinations].
           rewrite !rename_destinations_app, Hr. reflexivity.
    + split; [reflexivity|]. right. right.
      exists e, (GetAbstractFileByPath destination :: t1). split; [|split].
      * cbn [app notices]. rewrite !notices_app, Hn. reflexivity.
      * cbn [app]. rewrite <- ?app_assoc. reflexivity.
      * left. cbn [app rename_destinations].
        rewrite !rename_destinations_app, Hr. reflexivity.
Qed.

(** X12.  [relocateFile] never throws, whatever the host does, and ends in
    one of three ways: the destination is taken, and there is the lookup, the
    notice and nothing else; or its one rename was issued and the one notice
    [Moved to <destination>] is its last call; or an exception of the host or
    of the rewriter is shown in the one notice [Relocate failed: <e>] and
    logged.  The frontmatter is rewritten at most once, and never unless the
    rename was issued. *)
Theorem relocateFile_outcomes (engine : jsstring -> option (jsstring -> bool))
    (W : Type) (host : Host W) (settings : FileMoverSettings)
    (file : TFile) (destination : jsstring) (w : W) :
  let run := relocateFile engine host settings file destination w in
  result_of run = Ok tt /\
  List.length (processed (trace_of run)) <= List.length (rename_destinations (trace_of run)) /\
  ((trace_of run =
      [GetAbstractFileByPath destination;
       Notice (str "Cannot move: file already exists at " ++ destination)] /\
    state_of run = w) \/
   (notices (trace_of run) = [str "Moved to " ++ destination] /\
    rename_destinations (trace_of run) = [destination] /\
    exists t, trace_of run = t ++ [Notice (str "Moved to " ++ destination)]) \/
   (exists e t,
      notices (trace_of run) = [str "Relocate failed: " ++ e] /\
      trace_of run =
        t ++ [Notice (str "Relocate failed: " ++ e);
              ConsoleError (str "File Mover: relocate failed") e] /\
      (rename_destinations (trace_of run) = [] \/
       rename_destinations (trace_of run) = [destination]))).
Proof.
  intros run. subst run.
  unfold relocateFile, try_catch, bind, vault_getAbstractFileByPath,
    fileManager_renameFile, removeRecommendedPathProperty, vault_process,
    call, new_Notice, console_error, emit, ret.
  destruct (getAbstractFileByPath host w destination) as [existing|].
  - split; [reflexivity|]. split; [cbn; lia|]. left. split; reflexivity.
  - destruct (ensureParentFolders_quiet host destination w) as [Hr [Hn Hp]].
    destruct (ensureParentFolders host destination w) as [[[[]|e] w1] t1];
      unfold trace_of, result_of, state_of in *; cbn [fst snd] in *.
    + destruct (renameFile host w1 file destination) as [[[]|e] w2]; cbn [fst snd].
      * destruct (getAbstractFileByPath host w2 destination) as [[moved|folder]|];
          cbn [fst snd].
        -- destruct (process host w2 moved
                       (rewrite_frontmatter engine (recommendedPathProperty settings)))
             as [[[]|e] w3]; cbn [fst snd].
           ++ split; [reflexivity|]. split.
              { cbn [fst snd app processed rename_destinations].
                rewrite ?processed_app, ?rename_destinations_app, ?Hp, ?Hr. cbn. lia. }
              right. left. split; [|split].
              ** cbn [app notices]. rewrite !notices_app, Hn. reflexivity.
              ** cbn [app rename_destinations]. rewrite !rename_destinations_app, Hr.
                 reflexivity.
              ** exists (GetAbstractFileByPath destination ::
                         t1 ++ [RenameFile file destination;
                                GetAbstractFileByPath destination; Process moved]).
                 cbn [app]. rewrite <- ?app_assoc. reflexivity.
           ++ split; [reflexivity|]. split.
              { cbn [fst snd app processed rename_destinations].
                rewrite ?processed_app, ?rename_destinations_app, ?Hp, ?Hr. cbn. lia. }
              right. right.
              exists e, (GetAbstractFileByPath destination ::
                         t1 ++ [RenameFile file destination;
                                GetAbstractFileByPath destination; Process moved]).
              split; [|split].
              ** cbn [app notices]. rewrite !notices_app, Hn. reflexivity.
              ** cbn [app]. rewrite <- ?app_assoc. reflexivity.
              ** right. cbn [app rename_destinations].
                 rewrite !rename_destinations_app, Hr. reflexivity.
        -- split; [reflexivity|]. split.
           { cbn [fst snd app processed rename_destinations].
             rewrite ?processed_app, ?rename_destinations_app, ?Hp, ?Hr. cbn. lia. }
           right. left. split; [|split].
           ++ cbn [app notices]. rewrite !notices_app, Hn. reflexivity.
           ++ cbn [app rename_destinations]. rewrite !rename_destinations_app, Hr.
              reflexivity.
           ++ exists (GetAbstractFileByPath destination ::
                      t1 ++ [RenameFile file destination;
                             GetAbstractFileByPath destination]).
              cbn [app]. rewrite <- ?app_assoc. reflexivity.
        -- split; [reflexivity|]. split.
           { cbn [fst snd app processed rename_destinations].
             rewrite ?processed_app, ?rename_destinations_app, ?Hp, ?Hr. cbn. lia. }
           right. left. split; [|split].
           ++ cbn [app notices]. rewrite !notices_app, Hn. reflexivity.
           ++ cbn [app rename_destinations]. rewrite !rename_destinations_app, Hr.
              reflexivity.
           ++ exists (GetAbstractFileByPath destination ::
                      t1 ++ [RenameFile file destination;
                             GetAbstractFileByPath destination]).
              cbn [app]. rewrite <- ?app_assoc. reflexivity.
      * split; [reflexivity|]. split.
        { cbn [fst snd app processed rename_destinations].
          rewrite ?processed_app, ?rename_destinations_app, ?Hp, ?Hr. cbn. lia. }
        right. right.
        exists e, (GetAbstractFileByPath destination :: t1 ++ [RenameFile file destination]).
        split; [|split].
        -- cbn [app notices]. rewrite !notices_app, Hn. reflexivity.
        -- cbn [app]. rewrite <- ?app_assoc. reflexivity.
        -- right. cbn [app rename_destinations].
           rewrite !rename_destinations_app, Hr. reflexivity.
    + split; [reflexivity|]. split.
      { cbn [fst snd app processed rename_destinations].
        rewrite ?processed_app, ?rename_destinations_app, ?Hp, ?Hr. cbn. lia. }
      right. right.
      exists e, (GetAbstractFileByPath destination :: t1). split; [|split].
      * cbn [app notices]. rewrite !notices_app, Hn. reflexivity.
      * cbn [app]. rewrite <- ?app_assoc. reflexivity.
      * left. cbn [app rename_destinations].
        rewrite !rename_destinations_app, Hr. reflexivity.
Qed.

(** X13.  When nothing is at the destination, the parent folders are in
    place, the rename succeeds and the lookup after it finds a file, then
    [relocateFile] hands the file that this lookup found, and the rewriter
    with the property name of the settings, to [vault.process]; when that
    succeeds the last call is the notice [Moved to <destination>], and when it
    throws (the rewriter does, for a property name that is no pattern) the
    note stays where it was moved to and the notice is [Relocate failed]. *)
Theorem relocateFile_rewrites_the_file_found
    (engine : jsstring -> option (jsstring -> bool))
    (W : Type) (host : Host W) (settings : FileMoverSettings)
    (file moved : TFile) (destination : jsstring) (w w1 w2 : W) (t1 : list event) :
  getAbstractFileByPath host w destination = None ->
  ensureParentFolders host destination w = (Ok tt, w1, t1) ->
  renameFile host w1 file destination = (Ok tt, w2) ->
  getAbstractFileByPath host w2 destination = Some (IsFile moved) ->
  relocateFile engine host settings file destination w =
  match process host w2 moved
          (rewrite_frontmatter engine (recommendedPathProperty settings)) with
  | (Ok _, w3) =>
      (Ok tt, w3,
       GetAbstractFileByPath destination ::
       t1 ++
       [RenameFile file destination; GetAbstractFileByPath destination;
        Process moved; Notice (str "Moved to " ++ destination)])
  | (Throw e, w3) =>
      (Ok tt, w3,
       GetAbstractFileByPath destination ::
       t1 ++
       [RenameFile file destination; GetAbstractFileByPath destination;
        Process moved; Notice (str "Relocate failed: " ++ e);
        ConsoleError (str "File Mover: relocate failed") e])
  end.
Proof.
  intros Hfree Hfolders Hrename Hmoved.
  unfold relocateFile, try_catch, bind, vault_getAbstractFileByPath,
    fileManager_renameFile, removeRecommendedPathProperty, vault_process,
    call, new_Notice, console_error, emit.
  rewrite Hfree, Hfolders, Hrename, Hmoved.
  destruct (process host w2 moved
              (rewrite_frontmatter engine (recommendedPathProperty settings)))
    as [[[]|e] w3]; cbn [app]; rewrite <- ?app_assoc; reflexivity.
Qed.

Lemma relocateFile_rewrites_the_file_found_witness :
  relocateFile rejecting_engine memory_host
    {| archiveFolder := str "90_Archive";
       recommendedPathProperty := str "path(";
       confirmBeforeMove := false |}
    inbox_note (str "03_Areas/Note.md") inbox_vault =
  (Ok tt,
   [(str "Inbox", FolderNode);
    (str "03_Areas", FolderNode);
    (str "03_Areas/Taken.md", FileNode (str "already here"));
    (str "03_Areas/Note.md", FileNode note_with_tags)],
   [GetAbstractFileByPath (str "03_Areas/Note.md");
    GetAbstractFileByPath (str "03_Areas");
    RenameFile inbox_note (str "03_Areas/Note.md");
    GetAbstractFileByPath (str "03_Areas/Note.md");
    Process (file_at (str "03_Areas/Note.md"));
    Notice (str "Relocate failed: SyntaxError: Invalid regular expression");
    ConsoleError (str "File Mover: relocate failed")
      (str "SyntaxError: Invalid regular expression")]).
Proof.
  exact (@relocateFile_rewrites_the_file_found rejecting_engine vault memory_host
           {| archiveFolder := str "90_Archive";
              recommendedPathProperty := str "path(";
              confirmBeforeMove := false |}
           inbox_note (file_at (str "03_Areas/Note.md")) (str "03_Areas/Note.md")
           inbox_vault inbox_vault
           [(str "Inbox", FolderNode);
            (str "03_Areas", FolderNode);
            (str "03_Areas/Taken.md", FileNode (str "already here"));
            (str "03_Areas/Note.md", FileNode note_with_tags)]
           [GetAbstractFileByPath (str "03_Areas")]
           eq_refl eq_refl eq_refl eq_refl).
Defined.

(** ** The dialog *)

(** X14.  With the confirmation on, [handleArchive] only opens the dialog,
    with the file's name and the destination, and leaves the host's state as
    it was; and the click on Confirm then makes the calls and reaches the
    state that [handleArchive] makes and reaches at once with the
    confirmation off and the same archive folder. *)
Theorem archive_dialog_defers_the_same_move
    (W : Type) (host : Host W) (asking direct settings' : FileMoverSettings)
    (file : TFile) (w w' : W) :
  confirmBeforeMove asking = true ->
  confirmBeforeMove direct = false ->
  archiveFolder asking = archiveFolder direct ->
  trace_of (handleArchive host asking file w) =
    [ModalOpen (name file) (archive_destination asking (path file))] /\
  state_of (handleArchive host asking file w) = w /\
  trace_of (after_confirm settings' (handleArchive host asking file w) w') =
    trace_of (handleArchive host direct file w') /\
  state_of (after_confirm settings' (handleArchive host asking file w) w') =
    state_of (handleArchive host direct file w').
Proof.
  intros Hon Hoff Hfolder. unfold handleArchive, archive_destination.
  rewrite Hon, Hoff, Hfolder. cbn.
  unfold bind, ret, trace_of, state_of.
  destruct (archiveFile host file (archiveFolder direct ++ SLASH :: path file) w')
    as [[[[]|e] w1] t1]; cbn; rewrite ?app_nil_r; auto.
Qed.

Lemma archive_dialog_defers_the_same_move_witness :
  trace_of (after_confirm DEFAULT_SETTINGS
              (handleArchive memory_host DEFAULT_SETTINGS inbox_note inbox_vault)
              inbox_vault) =
  trace_of (handleArchive memory_host (settings_without_dialog "90_Archive")
              inbox_note inbox_vault).
Proof.
  exact (proj1 (proj2 (proj2
           (@archive_dialog_defers_the_same_move vault memory_host DEFAULT_SETTINGS
              (settings_without_dialog "90_Archive") DEFAULT_SETTINGS
              inbox_note inbox_vault inbox_vault eq_refl eq_refl eq_refl)))).
Defined.

(** X15.  With the confirmation on and a destination that passes the
    validator, [handleRelocate] only opens the dialog, with the file's name
    and the destination, and leaves the host's state as it was; and the click
    on Confirm then makes the calls and reaches the state that
    [handleRelocate] makes and reaches at once with the confirmation off and
    the property name that the settings have at the click. *)
Theorem relocate_dialog_defers_the_same_move
    (engine : jsstring -> option (jsstring -> bool))
    (W : Type) (host : Host W) (asking direct settings' : FileMoverSettings)
    (file : TFile) (recommendedPath : jsstring) (w w' : W) :
  isValidVaultPath (relocate_destination recommendedPath) = true ->
  confirmBeforeMove asking = true ->
  confirmBeforeMove direct = false ->
  recommendedPathProperty settings' = recommendedPathProperty direct ->
  trace_of (handleRelocate engine host asking file recommendedPath w) =
    [ModalOpen (name file) (relocate_destination recommendedPath)] /\
  state_of (handleRelocate engine host asking file recommendedPath w) = w /\
  trace_of (after_confirm settings'
              (handleRelocate engine host asking file recommendedPath w) w') =
    trace_of (handleRelocate engine host direct file recommendedPath w') /\
  state_of (after_confirm settings'
              (handleRelocate engine host asking file recommendedPath w) w') =
    state_of (handleRelocate engine host direct file recommendedPath w').
Proof.
  intros Hvalid Hon Hoff Hprop. unfold handleRelocate.
  rewrite Hvalid, Hon, Hoff. cbn.
  assert (E : relocateFile engine host settings' file (relocate_destination recommendedPath) =
              relocateFile engine host direct file (relocate_destination recommendedPath)).
  { unfold relocateFile, removeRecommendedPathProperty. now rewrite Hprop. }
  rewrite E. unfold bind, ret, trace_of, state_of.
  destruct (relocateFile engine host direct file (relocate_destination recommendedPath) w')
    as [[[[]|e] w1] t1]; cbn; rewrite ?app_nil_r; auto.
Qed.

Lemma relocate_dialog_defers_the_same_move_witness :
  state_of (after_confirm DEFAULT_SETTINGS
              (handleRelocate rejecting_engine memory_host DEFAULT_SETTINGS inbox_note
                 (str "03_Areas/Note") inbox_vault)
              inbox_vault) =
  state_of (handleRelocate rejecting_engine memory_host
              (settings_without_dialog "90_Archive") inbox_note
              (str "03_Areas/Note") inbox_vault).
Proof.
  exact (proj2 (proj2 (proj2
           (@relocate_dialog_defers_the_same_move rejecting_engine vault memory_host
              DEFAULT_SETTINGS (settings_without_dialog "90_Archive") DEFAULT_SETTINGS
              inbox_note (str "03_Areas/Note") inbox_vault inbox_vault
              eq_refl eq_refl eq_refl eq_refl)))).
Defined.

(** ** Trimming *)

Lemma drop_while_split (p : code_unit -> bool) (s : jsstring) :
  exists lead, s = lead ++ drop_while p s /\ forallb p lead = true.
Proof.
  induction s as [|c t [lead [Ht Hl]]]; [now exists []|].
  simpl. destruct (p c) eqn:E.
  - exists (c :: lead). split; [simpl; now rewrite <- Ht | simpl; now rewrite E].
  - now exists [].
Qed.

(** [s.trim()] is [s] without a run of whitespace at each end. *)
Lemma trim_split (s : jsstring) :
  exists lead trail,
    s = lead ++ trim s ++ trail /\
    forallb is_space lead = true /\ forallb is_space trail = true.
Proof.
  destruct (drop_while_split is_space s) as [lead [Hs Hl]].
  destruct (drop_while_split is_space (rev (drop_while is_space s))) as [tr [Hr Ht]].
  exists lead, (rev tr). split; [|split].
  - unfold trim. rewrite <- rev_app_distr, <- Hr, rev_involutive. exact Hs.
  - exact Hl.
  - now rewrite forallb_rev.
Qed.

Lemma trim_first (s : jsstring) (c : code_unit) (t : jsstring) :
  trim s = c :: t -> is_space c = false.
Proof.
  intros H.
  destruct (drop_while_split is_space (rev (drop_while is_space s))) as [tr [Hr Ht]].
  assert (Hy : drop_while is_space s = c :: t ++ rev tr).
  { rewrite <- (rev_involutive (drop_while is_space s)), Hr, rev_app_distr.
    fold (trim s). now rewrite H. }
  exact (drop_while_head _ _ Hy).
Qed.

Lemma trim_last (s : jsstring) (c : code_unit) (t : jsstring) :
  trim s = t ++ [c] -> is_space c = false.
Proof.
  intros H. unfold trim in H.
  apply (f_equal (@rev code_unit)) in H.
  rewrite rev_involutive, rev_app_distr in H. simpl in H.
  exact (drop_while_head _ _ H).
Qed.

Lemma trim_empty_iff (s : jsstring) :
  jsstring_eqb (trim s) [] = forallb is_space s.
Proof. exact (is_blank_spaces s). Qed.

(** ** The file menu *)

Section MenuProperties.
Variable RegExp_general : jsstring -> option (jsstring -> bool).
Variable W : Type.
Variable host : Host W.

(** X16.  The menu of a file has the Archive item exactly when the file's
    path does not start with the archive folder and a [/]; so a file at the
    destination of an archive move is not offered Archive again, and a folder
    is offered nothing. *)
Theorem archive_item_offered (settings : FileMoverSettings) (f : TFile)
    (frontmatter : jsstring -> frontmatter_value) :
  (offers (W := W) (str "archive")
     (file_menu RegExp_general host settings (IsFile f) frontmatter) <->
   startsWith (path f) (archiveFolder settings ++ [SLASH]) = false) /\
  (forall p, path f = archive_destination settings p ->
     ~ offers (W := W) (str "archive")
         (file_menu RegExp_general host settings (IsFile f) frontmatter)) /\
  (forall folder,
     file_menu RegExp_general host settings (IsFolder folder) frontmatter = []).
Proof.
  assert (Hiff : offers (W := W) (str "archive")
                   (file_menu RegExp_general host settings (IsFile f) frontmatter) <->
                 startsWith (path f) (archiveFolder settings ++ [SLASH]) = false).
  { unfold offers, file_menu.
    destruct (startsWith (path f) (archiveFolder settings ++ [SLASH])); cbn [negb app].
    - split; [|discriminate]. intros [item [Hin Hicon]]. exfalso.
      destruct (frontmatter (recommendedPathProperty settings)) as [v|]; [|contradiction].
      destruct (negb (jsstring_eqb v []) && negb (jsstring_eqb (trim v) []))%bool;
        [|contradiction].
      destruct Hin as [<-|[]]. discriminate Hicon.
    - split; [reflexivity|]. intros _. eexists. split; [now left | reflexivity]. }
  split; [exact Hiff|]. split; [|reflexivity].
  intros p Hp Hoff. apply Hiff in Hoff.
  rewrite Hp in Hoff. unfold archive_destination in Hoff.
  rewrite app_assoc, startsWith_app in Hoff. discriminate.
Qed.

(** X17.  The menu of a file has the Relocate item exactly when the cache
    holds a string under the property name of the settings and the string
    has a character that is not whitespace. *)
Theorem relocate_item_offered (settings : FileMoverSettings) (f : TFile)
    (frontmatter : jsstring -> frontmatter_value) :
  offers (W := W) (str "folder-input")
    (file_menu RegExp_general host settings (IsFile f) frontmatter) <->
  exists v, frontmatter (recommendedPathProperty settings) = FmString v /\
            forallb is_space v = false.
Proof.
  unfold offers, file_menu.
  assert (Ha : forall item,
             In item (if negb (startsWith (path f) (archiveFolder settings ++ [SLASH]))
                      then [ {| title := str "Archive"; icon := str "archive";
                                onClick := fun settings' => handleArchive host settings' f |} ]
                      else []) ->
             icon item <> str "folder-input").
  { intros item Hin.
    destruct (negb (startsWith (path f) (archiveFolder settings ++ [SLASH])));
      [|contradiction].
    destruct Hin as [<-|[]]. discriminate. }
  destruct (frontmatter (recommendedPathProperty settings)) as [v|].
  - rewrite trim_empty_iff.
    destruct (forallb is_space v) eqn:Hv.
    + rewrite andb_false_r, app_nil_r. split.
      * intros [item [Hin Hicon]]. now apply Ha in Hin.
      * intros [v' [Hv' Hs]]. injection Hv' as <-. congruence.
    + assert (Hne : jsstring_eqb v [] = false) by (destruct v; [discriminate | reflexivity]).
      rewrite Hne. cbn [negb andb]. split.
      * intros _. now exists v.
      * intros _. eexists. split; [apply in_or_app; right; now left | reflexivity].
  - rewrite app_nil_r. split.
    + intros [item [Hin Hicon]]. now apply Ha in Hin.
    + intros [v [Hv _]]. discriminate.
Qed.

(** X18.  For a string in the cache with a character that is not whitespace,
    the Relocate item shows the string as it is in its title, and its click
    runs [handleRelocate] on the string without the whitespace at its two
    ends: that path is not empty and neither begins nor ends with
    whitespace. *)
Theorem relocate_item_hands_on_trimmed_path (settings : FileMoverSettings) (f : TFile)
    (frontmatter : jsstring -> frontmatter_value) (v : jsstring) :
  frontmatter (recommendedPathProperty settings) = FmString v ->
  forallb is_space v = false ->
  In {| title := str "Move to " ++ v;
        icon := str "folder-input";
        onClick := fun settings' =>
          handleRelocate RegExp_general host settings' f (trim v) |}
     (file_menu RegExp_general host settings (IsFile f) frontmatter) /\
  (exists lead trail,
     v = lead ++ trim v ++ trail /\
     forallb is_space lead = true /\ forallb is_space trail = true) /\
  trim v <> [] /\
  (forall c t, trim v = c :: t -> is_space c = false) /\
  (forall c t, trim v = t ++ [c] -> is_space c = false).
Proof.
  intros Hv Hs. split; [|split; [|split; [|split]]].
  - unfold file_menu. rewrite Hv, trim_empty_iff, Hs.
    assert (Hne : jsstring_eqb v [] = false) by (destruct v; [discriminate | reflexivity]).
    rewrite Hne. cbn [negb andb]. apply in_or_app. right. now left.
  - apply trim_split.
  - intros E. pose proof (trim_empty_iff v) as H. rewrite E, Hs in H. discriminate.
  - apply trim_first.
  - apply trim_last.
Qed.

End MenuProperties.

Lemma relocate_item_hands_on_trimmed_path_witness :
  In {| title := str "Move to   03_Areas/Note ";
        icon := str "folder-input";
        onClick := fun settings' =>
          handleRelocate rejecting_engine memory_host settings' inbox_note
            (trim (str "  03_Areas/Note ")) |}
     (file_menu rejecting_engine memory_host DEFAULT_SETTINGS (IsFile inbox_note)
        (fun _ => FmString (str "  03_Areas/Note "))).
Proof.
  exact (proj1 (@relocate_item_hands_on_trimmed_path rejecting_engine vault memory_host
                  DEFAULT_SETTINGS inbox_note
                  (fun _ => FmString (str "  03_Areas/Note "))
                  (str "  03_Areas/Note ") eq_refl eq_refl)).
Defined.

(** ** More on the parent folders and the validator *)

Lemma visited_not_rooted (parts : list jsstring) :
  (forall part, In part parts -> ~ In SLASH part) ->
  forall current, ~ begins_with_slash current ->
  forall q, In q (visited current parts) -> ~ begins_with_slash q.
Proof.
  induction parts as [|part more IH]; intros Hparts current Hcur q Hq; [contradiction|].
  cbn [visited] in Hq.
  assert (Hnext : ~ begins_with_slash
                    match current with [] => part | _ :: _ => current ++ [SLASH] ++ part end).
  { destruct current as [|c current'].
    - intros [tail Ht]. apply (Hparts part); [now left|]. rewrite Ht. now left.
    - intros [tail Ht]. apply Hcur. simpl in Ht. injection Ht as -> _.
      now exists current'. }
  destruct Hq as [<-|Hq]; [exact Hnext|].
  apply (IH (fun p Hp => Hparts p (or_intror Hp)) _ Hnext q Hq).
Qed.

(** X19.  Whatever the file path is, [ensureParentFolders] makes only lookups
    and folder creations, and none of them at a path that begins with [/]. *)
Theorem ensureParentFolders_never_uses_rooted_paths
    (W : Type) (host : Host W) (filePath : jsstring) (w : W) :
  Forall (fun ev =>
            match ev with
            | GetAbstractFileByPath q => ~ begins_with_slash q
            | CreateFolder q => ~ begins_with_slash q
            | _ => False
            end)
    (trace_of (ensureParentFolders host filePath w)).
Proof.
  pose proof (ensure_loop_trace host (removelast (split SLASH filePath)) [] w) as [H _].
  unfold ensureParentFolders. eapply Forall_impl; [|exact H].
  assert (Hv : forall q, In q (visited [] (removelast (split SLASH filePath))) ->
                         ~ begins_with_slash q).
  { apply visited_not_rooted.
    - intros part Hp. apply split_segments_no_sep with (s := filePath).
      destruct (split SLASH filePath) as [|seg segs] eqn:E; [contradiction|].
      rewrite (app_removelast_last [] (l := seg :: segs)) by discriminate.
      apply in_or_app. now left.
    - intros [tail Ht]. discriminate. }
  intros [] Hev; simpl in Hev; try contradiction; now apply Hv.
Qed.

Lemma split_app_no_sep (sep : code_unit) (b : jsstring) :
  ~ In sep b ->
  forall a,
    split sep (a ++ b) =
    removelast (split sep a) ++ [last (split sep a) [] ++ b].
Proof.
  intros Hb. induction a as [|c t IH].
  - simpl. now apply split_no_sep.
  - cbn [app split]. rewrite IH.
    destruct (split sep t) as [|seg segs] eqn:E; [now apply split_nonempty in E|].
    destruct (N.eqb c sep).
    + destruct segs; reflexivity.
    + destruct segs; reflexivity.
Qed.

Lemma in_normalised (c : code_unit) (s : jsstring) :
  c <> SLASH -> In c (replace_all_char BACKSLASH SLASH s) -> In c s.
Proof.
  intros Hc Hin. unfold replace_all_char in Hin.
  apply in_map_iff in Hin as [x [Hx Hin]].
  destruct (N.eqb x BACKSLASH); [congruence | now subst].
Qed.

(** X20.  For a frontmatter value without a [.], the destination passes the
    validator exactly when the value has no drive prefix and does not begin
    with [/]: the appended [.md] changes neither, and there is no [..]
    segment to find. *)
Theorem dotless_value_rejected_only_when_absolute (recommendedPath : jsstring) :
  ~ In DOT recommendedPath ->
  relocate_destination recommendedPath = recommendedPath ++ str ".md" /\
  (isValidVaultPath (relocate_destination recommendedPath) = true <->
   ~ has_drive_prefix recommendedPath /\ ~ begins_with_slash recommendedPath).
Proof.
  intros Hdot.
  assert (Hd : relocate_destination recommendedPath = recommendedPath ++ str ".md").
  { unfold relocate_destination.
    destruct (includes recommendedPath DOT) eqn:E; [|reflexivity].
    apply includes_iff in E. contradiction. }
  split; [exact Hd|]. rewrite Hd.
  rewrite isValidVaultPath_cases, !andb_true_iff, !negb_true_iff.
  rewrite <- !not_true_iff_false.
  rewrite test_re_drive_iff, startsWith_slash_iff, existsb_dotdot_iff.
  assert (Hseg : ~ In DOTDOT
                   (split SLASH (replace_all_char BACKSLASH SLASH
                                   (recommendedPath ++ str ".md")))).
  { rewrite replace_all_char_app.
    change (replace_all_char BACKSLASH SLASH (str ".md")) with (str ".md").
    rewrite split_app_no_sep by (vm_compute; intuition discriminate).
    intros Hin. apply in_app_or in Hin as [Hin|[Hin|[]]].
    - apply Hdot. apply in_normalised; [discriminate|].
      apply split_segments_chars with (sep := SLASH) (seg := DOTDOT); [|now left].
      destruct (split SLASH (replace_all_char BACKSLASH SLASH recommendedPath))
        as [|seg segs] eqn:E; [contradiction|].
      rewrite (app_removelast_last [] (l := seg :: segs)) by discriminate.
      apply in_or_app. now left.
    - apply (f_equal (@List.length code_unit)) in Hin.
      rewrite length_app in Hin. simpl in Hin. lia. }
  assert (Hdrive : has_drive_prefix (recommendedPath ++ str ".md") <->
                   has_drive_prefix recommendedPath).
  { split.
    - intros [c [t [Hc E]]].
      destruct recommendedPath as [|x [|y p']].
      + vm_compute in E. injection E as _ E. discriminate.
      + vm_compute in E. injection E as _ E. discriminate.
      + simpl in E. injection E as -> -> _. now exists c, p'.
    - intros [c [t [Hc ->]]]. now exists c, (t ++ str ".md"). }
  assert (Hslash : begins_with_slash (recommendedPath ++ str ".md") <->
                   begins_with_slash recommendedPath).
  { split.
    - intros [t E]. destruct recommendedPath as [|x p'].
      + vm_compute in E. discriminate.
      + simpl in E. injection E as -> _. now exists p'.
    - intros [t ->]. now exists (t ++ str ".md"). }
  rewrite Hdrive, Hslash. tauto.
Qed.

Lemma dotless_value_rejected_only_when_absolute_witness :
  isValidVaultPath (relocate_destination (str "03_Areas\Plans\NewNote")) = true <->
  ~ has_drive_prefix (str "03_Areas\Plans\NewNote") /\
  ~ begins_with_slash (str "03_Areas\Plans\NewNote").
Proof.
  refine (proj2 (@dotless_value_rejected_only_when_absolute
                   (str "03_Areas\Plans\NewNote") _)).
  vm_compute. intuition discriminate.
Defined.

(** X21.  The test for a leading [/] is made before the backslashes are
    replaced: a path that begins with a backslash and has no [..] segment is
    accepted, although the same path with [/] for every backslash is
    rejected. *)
Theorem backslash_rooted_path_accepted (p : jsstring) :
  ~ has_dotdot_segment (BACKSLASH :: p) ->
  isValidVaultPath (BACKSLASH :: p) = true /\
  isValidVaultPath (replace_all_char BACKSLASH SLASH (BACKSLASH :: p)) = false.
Proof.
  intros Hno. split.
  - rewrite isValidVaultPath_cases, !andb_true_iff, !negb_true_iff.
    split; [split|].
    + destruct (test re_drive (BACKSLASH :: p)) eqn:E; [|reflexivity].
      apply test_re_drive_iff in E as [c [t [Hc E]]].
      injection E as <- _. vm_compute in Hc. discriminate.
    + reflexivity.
    + destruct (existsb _ _) eqn:E; [|reflexivity].
      apply existsb_dotdot_iff in E. contradiction.
  - rewrite isValidVaultPath_cases. cbn [replace_all_char map].
    rewrite N.eqb_refl. cbn [startsWith]. rewrite N.eqb_refl.
    cbn [andb negb]. now rewrite andb_false_r.
Qed.

Lemma backslash_rooted_path_accepted_witness :
  isValidVaultPath (str "\Windows\notes.md") = true /\
  isValidVaultPath (str "/Windows/notes.md") = false.
Proof.
  refine (@backslash_rooted_path_accepted (str "Windows\notes.md") _).
  vm_compute. intuition discriminate.
Defined.
